(** * kconfig_to_cmake: translating a resolved Kconfig tree into CMake cache data

    A shallow embedding of [tools/kconfig_to_cmake.py].  Python [str] values
    are modelled as byte strings ([string]); the two characters the script
    treats specially (backslash, double quote) and the newline are ASCII, and
    byte-wise lexicographic order on UTF-8 text coincides with Python's
    code-point order, so nothing is lost for the properties below.

    The external parser (kconfiglib) is a collaborator: it is modelled by the
    interface the script consumes, never by an implementation.  Operating
    system failures (permissions, a full disk) are outside the model. *)

From Stdlib Require Import ZArith Ascii String.
From stdpp Require Import gmap strings list fin_maps sorting.

Local Open Scope Z_scope.
Local Open Scope string_scope.

(** ** Characters and literals *)

Definition dquote : ascii := "034"%char.
Definition bslash : ascii := "092"%char.
Definition DQ : string := String dquote "".
Definition BS : string := String bslash "".
Definition NL : string := String "010"%char "".

(** ** The collaborator: what the script reads from kconfiglib *)

Module kconfiglib.

(** Symbol types ([kconfiglib.BOOL], ...).  [UNKNOWN] is kconfiglib's type
    for a symbol declared without one. *)
Inductive sym_type : Set := UNKNOWN | BOOL | TRISTATE | STRING | INT | HEX.

#[global] Instance sym_type_eq_dec : EqDecision sym_type.
Proof. solve_decision. Defined.

(** The attributes of a symbol the script looks at. *)
Record Symbol : Set := {
  name : string;
  type : sym_type;
  tri_value : Z;
  str_value : option string
}.

End kconfiglib.

Abbreviation Symbol := kconfiglib.Symbol.
Abbreviation BOOL := kconfiglib.BOOL.
Abbreviation TRISTATE := kconfiglib.TRISTATE.
Abbreviation STRING := kconfiglib.STRING.
Abbreviation INT := kconfiglib.INT.
Abbreviation HEX := kconfiglib.HEX.
Abbreviation UNKNOWN := kconfiglib.UNKNOWN.

(** ** Paths and the world the script acts on *)

(** A path is its list of components; [parent] drops the last one. *)
Abbreviation Path := (list string) (only parsing).

Definition path_str (p : Path) : string := String.concat "/" p.
Definition parent (p : Path) : Path := removelast p.

Record World : Type := {
  files : gmap Path string;
  dirs : gset Path;
  stderr : list string
}.

Definition is_file (w : World) (p : Path) : bool :=
  bool_decide (is_Some (files w !! p)).

(** [p.mkdir(parents=True, exist_ok=True)]: [p] and every ancestor exist
    as directories afterwards. *)
Definition mkdir_parents (w : World) (p : Path) : World :=
  {| files := files w;
     dirs := dirs w ∪ list_to_set ((λ n, take n p) <$> seq 0 (S (length p)));
     stderr := stderr w |}.

(** [p.write_text(text)]: the file is fully rewritten. *)
Definition write_text (w : World) (p : Path) (text : string) : World :=
  {| files := <[p := text]> (files w); dirs := dirs w; stderr := stderr w |}.

Definition stderr_write (w : World) (msg : string) : World :=
  {| files := files w; dirs := dirs w; stderr := stderr w ++ [msg] |}.

(** The interface of the [kconfiglib] module: build a [Kconfig] object from
    the schema path, load a saved selection into it, enumerate its symbols. *)
Record Kconfiglib : Type := {
  KconfigObj : Type;
  Kconfig : gmap Path string → string → KconfigObj;
  load_config : gmap Path string → KconfigObj → string → KconfigObj;
  unique_defined_syms : KconfigObj → list Symbol
}.

(** ** [_cmake_escape] *)

(** [s.replace(old, new)] for a one-character [old], the only form used. *)
Fixpoint str_replace (old : ascii) (new : string) (s : string) : string :=
  match s with
  | EmptyString => ""
  | String c rest =>
      (if decide (c = old) then new else String c "") +:+ str_replace old new rest
  end.

Definition _cmake_escape (value : string) : string :=
  str_replace dquote (BS +:+ DQ) (str_replace bslash (BS +:+ BS) value).

(** ** [_write_minimal_output] *)

Definition placeholder_text : string :=
  "# Auto-generated placeholder. Run menuconfig to populate symbols." +:+ NL +:+
  "set(AEROSYNC_KCONFIG_DEFINES)" +:+ NL.

Definition _write_minimal_output (w : World) (output_path : Path) : World :=
  write_text (mkdir_parents w (parent output_path)) output_path placeholder_text.

(** ** The translation pass of [_generate_cache] *)

(** The two accumulators of the pass: [defines] and [cmake_sets]. *)
Record Acc : Type := {
  defines : gmap string string;
  cmake_sets : list string
}.

Definition acc0 : Acc := {| defines := ∅; cmake_sets := [] |}.

Definition set_define (a : Acc) (name value : string) : Acc :=
  {| defines := <[name := value]> (defines a); cmake_sets := cmake_sets a |}.

Definition emit_symbol (a : Acc) (name value : string) (plain : bool) : Acc :=
  let a := if plain then set_define a name value else a in
  set_define a ("CONFIG_" +:+ name) value.

Definition append_set (a : Acc) (line : string) : Acc :=
  {| defines := defines a; cmake_sets := cmake_sets a ++ [line] |}.

(** The assignment statement [set(CONFIG_<name> "<text>")]. *)
Definition set_line (name text : string) : string :=
  "set(CONFIG_" +:+ name +:+ " " +:+ DQ +:+ text +:+ DQ +:+ ")".

(** One iteration of [for sym in kconf.unique_defined_syms]. *)
Definition loop_body (a : Acc) (sym : Symbol) : Acc :=
  let name := kconfiglib.name sym in
  if decide (name = "") then a
  else if decide (kconfiglib.type sym ∈ [BOOL; TRISTATE]) then
    let tri := kconfiglib.tri_value sym in
    if decide (tri = 0) then a
    else if decide (tri = 2) then
      let a := emit_symbol a name "1" true in
      append_set a (set_line name "y")
    else if decide (tri = 1) then
      let a := emit_symbol a name "m" true in
      let a := emit_symbol a (name +:+ "_MODULE") "1" true in
      append_set a (set_line name "m")
    else a
  else if decide (kconfiglib.type sym ∈ [INT; HEX; STRING]) then
    match kconfiglib.str_value sym with
    | None | Some "" => a
    | Some value =>
        let a :=
          if decide (kconfiglib.type sym = STRING)
          then emit_symbol a name (DQ +:+ value +:+ DQ) true
          else emit_symbol a name value true in
        append_set a (set_line name (_cmake_escape value))
    end
  else a.

Definition run_loop (syms : list Symbol) : Acc := foldl loop_body acc0 syms.

(** [sorted(defines)]: the keys in increasing lexicographic order. *)
Definition sorted (d : gmap string string) : list string :=
  merge_sort String.le (elements (dom d)).

(** One entry of the aggregated collection, as serialised. *)
Definition define_line (d : gmap string string) (name : string) : string :=
  "    " +:+ DQ +:+ _cmake_escape name +:+ "=" +:+ _cmake_escape (d !!! name) +:+ DQ.

Definition output_lines (a : Acc) : list string :=
  ["# This file is auto-generated. Do not edit."; "set(AEROSYNC_KCONFIG_DEFINES"]
  ++ (define_line (defines a) <$> sorted (defines a))
  ++ [")" +:+ NL]
  ++ cmake_sets a
  ++ [NL].

Definition render (syms : list Symbol) : string :=
  String.concat NL (output_lines (run_loop syms)).

(** ** [_generate_cache] *)

Definition _generate_cache (lib : option Kconfiglib) (w : World)
    (kconfig_path config_path output_path : Path) : World * Z :=
  match lib with
  | None => (stderr_write w ("kconfiglib is not installed." +:+ NL), 1)
  | Some lib =>
      if negb (is_file w kconfig_path) then
        let w := stderr_write w
          ("warning: Kconfig file '" +:+ path_str kconfig_path +:+
           "' not found; emitting empty cache." +:+ NL) in
        (_write_minimal_output w output_path, 0)
      else
        let kconf := Kconfig lib (files w) (path_str kconfig_path) in
        let '(kconf, w) :=
          if is_file w config_path
          then (load_config lib (files w) kconf (path_str config_path), w)
          else (kconf, stderr_write w
                  ("warning: config file '" +:+ path_str config_path +:+
                   "' not found; continuing with defaults." +:+ NL)) in
        let a := run_loop (unique_defined_syms lib kconf) in
        let w := mkdir_parents w (parent output_path) in
        (write_text w output_path (String.concat NL (output_lines a)), 0)
  end.

(** The symbols the pass iterates over, as [_generate_cache] obtains them. *)
Definition resolved_syms (lib : Kconfiglib) (w : World)
    (kconfig_path config_path : Path) : list Symbol :=
  let kconf := Kconfig lib (files w) (path_str kconfig_path) in
  unique_defined_syms lib
    (if is_file w config_path
     then load_config lib (files w) kconf (path_str config_path)
     else kconf).

(** The serialised entry [    "<name>=<value>"] of the aggregated collection
    and the entries of an accumulator, in output order. *)
Definition entry_line (name value : string) : string :=
  "    " +:+ DQ +:+ _cmake_escape name +:+ "=" +:+ _cmake_escape value +:+ DQ.

Definition aggregated_lines (a : Acc) : list string :=
  define_line (defines a) <$> sorted (defines a).

(** ** Reading the artifact back

    The consumer's view of a quoted literal: it opens with a double quote, a
    backslash makes the next character literal, and the first unescaped
    double quote closes it.  [read_quoted] returns the literal's value and the
    text after it. *)

Fixpoint read_quoted_body (s : string) : option (string * string) :=
  match s with
  | EmptyString => None
  | String c rest =>
      if decide (c = dquote) then Some ("", rest)
      else if decide (c = bslash) then
        match rest with
        | EmptyString => None
        | String d rest' =>
            '(v, r) ← read_quoted_body rest'; Some (String d v, r)
        end
      else '(v, r) ← read_quoted_body rest; Some (String c v, r)
  end.

Definition read_quoted (s : string) : option (string * string) :=
  match s with
  | EmptyString => None
  | String c rest => if decide (c = dquote) then read_quoted_body rest else None
  end.

Fixpoint strip_prefix (p s : string) : option string :=
  match p, s with
  | EmptyString, _ => Some s
  | String _ _, EmptyString => None
  | String a p', String b s' => if decide (a = b) then strip_prefix p' s' else None
  end.

(** The value of [set(CONFIG_<name> "...")], read back from the line. *)
Definition read_set_line (name line : string) : option string :=
  rest ← strip_prefix ("set(CONFIG_" +:+ name +:+ " ") line;
  '(v, rest) ← read_quoted rest;
  if decide (rest = ")") then Some v else None.

(** The text [<name>=<value>] of an aggregated entry, read back from its
    line, and the value part of it for a known name. *)
Definition read_entry_line (line : string) : option string :=
  rest ← strip_prefix "    " line;
  '(v, rest) ← read_quoted rest;
  if decide (rest = "") then Some v else None.

Definition read_entry_value (name line : string) : option string :=
  read_entry_line line ≫= strip_prefix (name +:+ "=").

(** ** Auxiliary notions used in the statements *)

(** What [_cmake_escape] does to one character. *)
Definition escape_char (c : ascii) : string :=
  if decide (c = bslash) then BS +:+ BS
  else if decide (c = dquote) then BS +:+ DQ
  else String c "".

(** Occurrences of a character, to tell apart keys of the same length. *)
Fixpoint count_char (c : ascii) (s : string) : nat :=
  match s with
  | EmptyString => 0%nat
  | String d rest => ((if decide (d = c) then 1 else 0) + count_char c rest)%nat
  end.

(** ** Sample inputs *)

Definition mk_sym (n : string) (t : kconfiglib.sym_type) (tri : Z)
    (str : option string) : Symbol :=
  {| kconfiglib.name := n; kconfiglib.type := t;
     kconfiglib.tri_value := tri; kconfiglib.str_value := str |}.

Definition sym_FOO : Symbol := mk_sym "FOO" BOOL 2 (Some "y").
Definition sym_CONFIG_FOO : Symbol := mk_sym "CONFIG_FOO" INT 0 (Some "5").
Definition sym_BAR : Symbol := mk_sym "BAR" TRISTATE 1 (Some "m").
Definition sym_OFF : Symbol := mk_sym "OFF" BOOL 0 (Some "n").
Definition sym_BASE : Symbol := mk_sym "BASE" HEX 0 (Some "0x1000").
Definition sym_BLANK : Symbol := mk_sym "BLANK" STRING 0 (Some "").

(** The value [it's "quoted"] of the specification's example. *)
Definition quoted_value : string := "it's " +:+ DQ +:+ "quoted" +:+ DQ.
Definition sym_NAME : Symbol := mk_sym "NAME" STRING 0 (Some quoted_value).

(** A parser that finds the given symbols whatever it reads. *)
Definition const_lib (syms : list Symbol) : Kconfiglib :=
  {| KconfigObj := list Symbol;
     Kconfig := λ _ _, syms;
     load_config := λ _ kconf _, kconf;
     unique_defined_syms := λ kconf, kconf |}.

Definition world_with_schema : World :=
  {| files := {[ ["Kconfig"] := "config FOO" ]}; dirs := ∅; stderr := [] |}.

Definition world_without_schema : World :=
  {| files := ∅; dirs := ∅; stderr := [] |}.

(** ** Collaborators that can fail and print

    [_generate_cache] above is the script over a parser that answers and a
    file system that takes the write.  The definitions below follow the same
    source lines with what the collaborators do besides answering: the import
    can raise something other than ModuleNotFoundError, the parser prints
    warnings on the error stream and can raise, evaluating the symbols can
    print, and [mkdir] and [write_text] raise on a path of the wrong kind.
    [files] lists the regular files of a world and [dirs] its directories.
    Permissions, a full disk and the like stay outside. *)

Inductive exception : Set :=
  | ImportFailure (what : string)
  | ParserFailure (what : string)
  | FileExistsError
  | NotADirectoryError
  | IsADirectoryError.

Inductive result (A : Type) : Type :=
  | Ok (a : A)
  | Raise (e : exception).

Arguments Ok {A} a.
Arguments Raise {A} e.

(** A computation on the world that returns or raises. *)
Definition IO (A : Type) : Type := World → World * result A.

#[global] Instance IO_ret : MRet IO := λ A a w, (w, Ok a).

#[global] Instance IO_bind : MBind IO := λ A B f m w,
  match m w with
  | (w', Ok a) => f a w'
  | (w', Raise e) => (w', Raise e)
  end.

Definition raise {A : Type} (e : exception) : IO A := λ w, (w, Raise e).

Definition stderr_write_io (msg : string) : IO unit :=
  λ w, (stderr_write w msg, Ok tt).

Definition is_file_io (p : Path) : IO bool := λ w, (w, Ok (is_file w p)).

Definition stderr_writes (w : World) (msgs : list string) : World :=
  {| files := files w; dirs := dirs w; stderr := stderr w ++ msgs |}.

(** A call into the parser: it reads files, prints its warnings, then answers
    or raises. *)
Definition call_io {A : Type}
    (f : gmap Path string → list string * result A) : IO A :=
  λ w, (stderr_writes w (f (files w)).1, (f (files w)).2).

(** [p.mkdir(parents=True, exist_ok=True)]: an ancestor that is a regular
    file, or [p] itself being one, makes it raise and create nothing. *)
Definition mkdir_parents_io (p : Path) : IO unit :=
  λ w, if existsb (λ n, is_file w (take n p)) (seq 0 (length p))
       then (w, Raise NotADirectoryError)
       else if is_file w p then (w, Raise FileExistsError)
       else (mkdir_parents w p, Ok tt).

(** [p.write_text(text)], called once the parent directory exists: it raises
    when [p] is a directory. *)
Definition write_text_io (p : Path) (text : string) : IO unit :=
  λ w, if bool_decide (p ∈ dirs w) then (w, Raise IsADirectoryError)
       else (write_text w p text, Ok tt).

Definition _write_minimal_output_io (output_path : Path) : IO unit :=
  mkdir_parents_io (parent output_path);;
  write_text_io output_path placeholder_text.

(** The parser with its effects.  The last field gives the symbols with the
    values the loop reads, and what evaluating those values prints. *)
Record KconfiglibIO : Type := {
  KconfigIO : Type;
  Kconfig_io : gmap Path string → string → list string * result KconfigIO;
  load_config_io :
    gmap Path string → KconfigIO → string → list string * result KconfigIO;
  unique_defined_syms_io : KconfigIO → list string * list Symbol
}.

(** What [import kconfiglib] comes to. *)
Inductive import_outcome : Type :=
  | ModuleNotFound
  | ImportRaised (e : exception)
  | Imported (lib : KconfiglibIO).

Definition _generate_cache_io (imp : import_outcome)
    (kconfig_path config_path output_path : Path) : IO Z :=
  match imp with
  | ImportRaised e => raise e
  | ModuleNotFound =>
      stderr_write_io ("kconfiglib is not installed." +:+ NL);; mret 1
  | Imported lib =>
      schema ← is_file_io kconfig_path;
      if negb schema then
        stderr_write_io
          ("warning: Kconfig file '" +:+ path_str kconfig_path +:+
           "' not found; emitting empty cache." +:+ NL);;
        _write_minimal_output_io output_path;;
        mret 0
      else
        kconf ← call_io (λ fs, Kconfig_io lib fs (path_str kconfig_path));
        selection ← is_file_io config_path;
        kconf ← (if (selection : bool)
                 then call_io (λ fs, load_config_io lib fs kconf (path_str config_path))
                 else stderr_write_io
                        ("warning: config file '" +:+ path_str config_path +:+
                         "' not found; continuing with defaults." +:+ NL);;
                      mret kconf) : IO (KconfigIO lib);
        syms ← call_io (λ _, ((unique_defined_syms_io lib kconf).1,
                              Ok (unique_defined_syms_io lib kconf).2));
        mkdir_parents_io (parent output_path);;
        write_text_io output_path
          (String.concat NL (output_lines (run_loop syms)));;
        mret 0
  end.

(** The exit status of the process: [raise SystemExit(main())] passes the
    returned code on, and an exception that reaches the top level ends the
    interpreter with status 1. *)
Definition exit_status (r : result Z) : Z :=
  match r with
  | Ok code => code
  | Raise _ => 1
  end.

(** The output location takes the write: no ancestor of the output path is a
    regular file, and the path is neither a directory nor the empty path. *)
Definition writable (w : World) (output_path : Path) : bool :=
  negb (existsb (λ n, is_file w (take n (parent output_path)))
          (seq 0 (S (length (parent output_path)))))
  && negb (bool_decide (output_path ∈ dirs w))
  && negb (bool_decide (output_path = [])).

(** A parser of the first model seen as one that prints nothing and never
    raises, and the import that finds it. *)
Definition answering (lib : Kconfiglib) : KconfiglibIO :=
  {| KconfigIO := KconfigObj lib;
     Kconfig_io := λ fs p, ([], Ok (Kconfig lib fs p));
     load_config_io := λ fs kconf p, ([], Ok (load_config lib fs kconf p));
     unique_defined_syms_io := λ kconf, ([], unique_defined_syms lib kconf) |}.

Definition import_of (lib : option Kconfiglib) : import_outcome :=
  match lib with
  | None => ModuleNotFound
  | Some lib => Imported (answering lib)
  end.

(** Why a run with the module imported can raise [e]: the parser raised it on
    the schema, or on the selection, or the output location does not take the
    write. *)
Definition failure_cause (lib : KconfiglibIO) (w : World)
    (kconfig_path config_path output_path : Path) (e : exception) : Prop :=
  (is_file w kconfig_path = true ∧
   (Kconfig_io lib (files w) (path_str kconfig_path)).2 = Raise e) ∨
  (is_file w kconfig_path = true ∧ is_file w config_path = true ∧
   ∃ kconf, (Kconfig_io lib (files w) (path_str kconfig_path)).2 = Ok kconf ∧
            (load_config_io lib (files w) kconf (path_str config_path)).2 = Raise e) ∨
  (writable w output_path = false ∧
   e ∈ [NotADirectoryError; FileExistsError; IsADirectoryError]).

(** ** More sample inputs *)


Definition world_with_config : World :=
  {| files := {[ ["Kconfig"] := "config FOO"; [".config"] := "CONFIG_FOO=y" ]};
     dirs := ∅; stderr := [] |}.


(** A parser that warns about the schema, finds [defaults] in it, and turns
    them into [selected], with a warning of its own, when a selection is
    loaded; evaluating the symbols prints one more warning. *)
Definition warning_lib (defaults selected : list Symbol) : KconfiglibIO :=
  {| KconfigIO := list Symbol;
     Kconfig_io := λ _ _, (["warning: FOO has no type"], Ok defaults);
     load_config_io := λ _ _ _, (["warning: BAZ is not defined"], Ok selected);
     unique_defined_syms_io := λ kconf, (["warning: bad default"], kconf) |}.

(** A parser that rejects every schema. *)
Definition failing_lib : KconfiglibIO :=
  {| KconfigIO := list Symbol;
     Kconfig_io := λ _ _, (["warning: FOO has no type"],
                           Raise (ParserFailure "KconfigError"));
     load_config_io := λ _ kconf _, ([], Ok kconf);
     unique_defined_syms_io := λ kconf, ([], kconf) |}.

(** The guards of the loop body under which a symbol reaches no emitting
    statement: no name, an unselected (or out of range) tri-state value, an
    empty text value, or a type the body has no branch for. *)
Definition skipped (s : Symbol) : Prop :=
  kconfiglib.name s = "" ∨
  (kconfiglib.type s ∈ [BOOL; TRISTATE] ∧
   kconfiglib.tri_value s ≠ 1 ∧ kconfiglib.tri_value s ≠ 2) ∨
  (kconfiglib.type s ∈ [INT; HEX; STRING] ∧
   (kconfiglib.str_value s = None ∨ kconfiglib.str_value s = Some "")) ∨
  kconfiglib.type s = UNKNOWN.

(** * Properties *)

(** ** The model on concrete inputs *)

Example entry_line_plain :
  entry_line "FOO" "1" = "    " +:+ DQ +:+ "FOO=1" +:+ DQ.
Proof. reflexivity. Qed.

Example set_line_plain :
  set_line "FOO" "y" = "set(CONFIG_FOO " +:+ DQ +:+ "y" +:+ DQ +:+ ")".
Proof. reflexivity. Qed.

Example cmake_escape_quoted_value :
  _cmake_escape quoted_value = "it's " +:+ BS +:+ DQ +:+ "quoted" +:+ BS +:+ DQ.
Proof. reflexivity. Qed.

Example cmake_escape_backslash :
  _cmake_escape ("a" +:+ BS +:+ DQ) = "a" +:+ BS +:+ BS +:+ BS +:+ DQ.
Proof. reflexivity. Qed.

Example output_lines_small :
  output_lines (run_loop [sym_NAME; sym_BLANK; sym_OFF; sym_FOO; sym_BASE]) =
    ["# This file is auto-generated. Do not edit.";
     "set(AEROSYNC_KCONFIG_DEFINES";
     entry_line "BASE" "0x1000";
     entry_line "CONFIG_BASE" "0x1000";
     entry_line "CONFIG_FOO" "1";
     entry_line "CONFIG_NAME" (DQ +:+ quoted_value +:+ DQ);
     entry_line "FOO" "1";
     entry_line "NAME" (DQ +:+ quoted_value +:+ DQ);
     ")" +:+ NL;
     set_line "NAME" (_cmake_escape quoted_value);
     set_line "FOO" "y";
     set_line "BASE" "0x1000";
     NL].
Proof. by vm_compute. Qed.

Example render_one :
  render [sym_FOO] =
    "# This file is auto-generated. Do not edit." +:+ NL +:+
    "set(AEROSYNC_KCONFIG_DEFINES" +:+ NL +:+
    "    " +:+ DQ +:+ "CONFIG_FOO=1" +:+ DQ +:+ NL +:+
    "    " +:+ DQ +:+ "FOO=1" +:+ DQ +:+ NL +:+
    ")" +:+ NL +:+ NL +:+
    "set(CONFIG_FOO " +:+ DQ +:+ "y" +:+ DQ +:+ ")" +:+ NL +:+ NL.
Proof. by vm_compute. Qed.

(** ** Strings *)

Section strings.

Lemma string_app_cons c (s t : string) : String c s +:+ t = String c (s +:+ t).
Proof. reflexivity. Qed.

Lemma string_app_nil_l (s : string) : "" +:+ s = s.
Proof. reflexivity. Qed.

Lemma string_app_nil_r (s : string) : s +:+ "" = s.
Proof. induction s as [|c s IH]; [done|]. by rewrite string_app_cons, IH. Qed.

Lemma string_app_assoc (s t u : string) : (s +:+ t) +:+ u = s +:+ t +:+ u.
Proof. induction s as [|c s IH]; [done|]. by rewrite !string_app_cons, IH. Qed.

Lemma string_app_length (s t : string) :
  String.length (s +:+ t) = (String.length s + String.length t)%nat.
Proof. induction s as [|c s IH]; [done|]. rewrite string_app_cons. simpl. by rewrite IH. Qed.

Lemma strip_prefix_app (p s : string) : strip_prefix p (p +:+ s) = Some s.
Proof.
  induction p as [|c p IH]; [by destruct s|].
  rewrite string_app_cons. simpl. by rewrite decide_True.
Qed.

Lemma count_char_app c (s t : string) :
  count_char c (s +:+ t) = (count_char c s + count_char c t)%nat.
Proof.
  induction s as [|d s IH]; [done|]. rewrite string_app_cons. simpl. rewrite IH. lia.
Qed.

End strings.

(** ** The order of [sorted]

    [String.le] compares strings character by character on their codes, a
    proper prefix coming first: the order of Python's [sorted] on [str]. *)

Section order.

Lemma string_le_nil (t : string) : String.le "" t.
Proof. by destruct t. Qed.

Lemma string_le_cons_nil a (s : string) : ¬ String.le (String a s) "".
Proof. by intros H. Qed.

Lemma string_le_cons a b (s t : string) :
  String.le (String a s) (String b t) ↔
  (nat_of_ascii a < nat_of_ascii b)%nat ∨ (a = b ∧ String.le s t).
Proof.
  unfold String.le, String.leb. simpl.
  destruct (Ascii.compare a b) eqn:Hab.
  - apply Ascii.compare_eq_iff in Hab as ->. split; [auto|].
    intros [?|[_ ?]]; [lia|done].
  - unfold Ascii.compare in Hab. rewrite N.compare_lt_iff in Hab.
    unfold nat_of_ascii. split; [intros _; left; lia|done].
  - unfold Ascii.compare in Hab. rewrite N.compare_gt_iff in Hab.
    unfold nat_of_ascii. split; [done|].
    intros [?|[-> _]]; lia.
Qed.

End order.

(** ** Escaping *)

Section escape.

Lemma str_replace_app old new (s t : string) :
  str_replace old new (s +:+ t) = str_replace old new s +:+ str_replace old new t.
Proof.
  induction s as [|c s IH]; [done|].
  rewrite string_app_cons. simpl. by rewrite IH, string_app_assoc.
Qed.

Lemma cmake_escape_nil : _cmake_escape "" = "".
Proof. reflexivity. Qed.

Lemma cmake_escape_cons c (s : string) :
  _cmake_escape (String c s) = escape_char c +:+ _cmake_escape s.
Proof.
  unfold _cmake_escape, escape_char. simpl str_replace at 2.
  rewrite str_replace_app. f_equal.
  destruct (decide (c = bslash)) as [->|Hb]; [done|].
  destruct (decide (c = dquote)) as [->|Hq]; [done|].
  simpl. by rewrite decide_False.
Qed.

Lemma cmake_escape_app (s t : string) :
  _cmake_escape (s +:+ t) = _cmake_escape s +:+ _cmake_escape t.
Proof.
  induction s as [|c s IH]; [done|].
  by rewrite string_app_cons, !cmake_escape_cons, IH, string_app_assoc.
Qed.

(** Reading an escaped text up to the closing quote gives the text back. *)
Lemma read_quoted_body_escape (v rest : string) :
  read_quoted_body (_cmake_escape v +:+ DQ +:+ rest) = Some (v, rest).
Proof.
  induction v as [|c v IH]; [done|].
  rewrite cmake_escape_cons, string_app_assoc. unfold escape_char.
  destruct (decide (c = bslash)) as [->|Hb].
  { change (read_quoted_body (String bslash (String bslash
      (_cmake_escape v +:+ DQ +:+ rest))) = Some (String bslash v, rest)).
    simpl. by rewrite IH. }
  destruct (decide (c = dquote)) as [->|Hq].
  { change (read_quoted_body (String bslash (String dquote
      (_cmake_escape v +:+ DQ +:+ rest))) = Some (String dquote v, rest)).
    simpl. by rewrite IH. }
  rewrite string_app_cons, string_app_nil_l. simpl.
  rewrite !decide_False by done. by rewrite IH.
Qed.

Lemma read_quoted_escape (v rest : string) :
  read_quoted (DQ +:+ _cmake_escape v +:+ DQ +:+ rest) = Some (v, rest).
Proof. apply read_quoted_body_escape. Qed.

Lemma read_set_line_escape (name v : string) :
  read_set_line name (set_line name (_cmake_escape v)) = Some v.
Proof.
  unfold read_set_line, set_line.
  replace ("set(CONFIG_" +:+ name +:+ " " +:+ DQ +:+ _cmake_escape v +:+ DQ +:+ ")")
    with (("set(CONFIG_" +:+ name +:+ " ") +:+ DQ +:+ _cmake_escape v +:+ DQ +:+ ")")
    by (by rewrite !string_app_assoc).
  rewrite strip_prefix_app. simpl.
  by rewrite string_app_nil_l, read_quoted_body_escape.
Qed.

Lemma read_entry_line_escape (name value : string) :
  read_entry_line (entry_line name value) = Some (name +:+ "=" +:+ value).
Proof.
  unfold read_entry_line, entry_line.
  rewrite strip_prefix_app. simpl.
  replace (_cmake_escape name +:+ "=" +:+ _cmake_escape value +:+ DQ)
    with (_cmake_escape (name +:+ "=" +:+ value) +:+ DQ +:+ "").
  { by rewrite string_app_nil_l, read_quoted_body_escape. }
  by rewrite !cmake_escape_app, !string_app_assoc, string_app_nil_r.
Qed.

End escape.

(** ** The translation pass as a writer

    One iteration only adds to the accumulators: what it writes does not
    depend on what is already there, later writes to a key win, and
    assignment statements are appended. *)

Section pass.

Implicit Types (a : Acc) (s : Symbol) (l : list Symbol) (k v : string).

Lemma loop_body_defines a s :
  defines (loop_body a s) = defines (loop_body acc0 s) ∪ defines a.
Proof.
  unfold loop_body.
  repeat case_decide; try destruct (kconfiglib.str_value s) as [[|c r]|];
    simpl; rewrite <- ?insert_union_l, (left_id_L ∅ (∪)); done.
Qed.

Lemma loop_body_cmake_sets a s :
  cmake_sets (loop_body a s) = (cmake_sets a ++ cmake_sets (loop_body acc0 s))%list.
Proof.
  unfold loop_body.
  repeat case_decide; try destruct (kconfiglib.str_value s) as [[|c r]|];
    simpl; by rewrite ?app_nil_r.
Qed.

Lemma foldl_loop_body_defines l a :
  defines (foldl loop_body a l) = defines (run_loop l) ∪ defines a.
Proof.
  unfold run_loop. revert a. induction l as [|s l IH]; intros a; simpl.
  { by rewrite (left_id_L ∅ (∪)). }
  rewrite (IH (loop_body a s)), (IH (loop_body acc0 s)), (loop_body_defines a s).
  by rewrite (assoc_L (∪)).
Qed.

Lemma foldl_loop_body_cmake_sets l a :
  cmake_sets (foldl loop_body a l) = (cmake_sets a ++ cmake_sets (run_loop l))%list.
Proof.
  unfold run_loop. revert a. induction l as [|s l IH]; intros a; simpl.
  { by rewrite app_nil_r. }
  rewrite (IH (loop_body a s)), (IH (loop_body acc0 s)), (loop_body_cmake_sets a s).
  by rewrite (assoc_L (++)).
Qed.

Lemma run_loop_app_defines l1 l2 :
  defines (run_loop (l1 ++ l2)) = defines (run_loop l2) ∪ defines (run_loop l1).
Proof. unfold run_loop at 1. rewrite foldl_app. apply foldl_loop_body_defines. Qed.

Lemma run_loop_app_cmake_sets l1 l2 :
  cmake_sets (run_loop (l1 ++ l2)) =
    (cmake_sets (run_loop l1) ++ cmake_sets (run_loop l2))%list.
Proof. unfold run_loop at 1. rewrite foldl_app. apply foldl_loop_body_cmake_sets. Qed.

Lemma run_loop_cons_defines s l :
  defines (run_loop (s :: l)) = defines (run_loop l) ∪ defines (loop_body acc0 s).
Proof. apply (run_loop_app_defines [s] l). Qed.

Lemma run_loop_cons_cmake_sets s l :
  cmake_sets (run_loop (s :: l)) =
    (cmake_sets (loop_body acc0 s) ++ cmake_sets (run_loop l))%list.
Proof. apply (run_loop_app_cmake_sets [s] l). Qed.

(** A symbol on which the body does nothing can be dropped from the schema. *)
Lemma run_loop_skip l1 s l2 :
  (∀ a, loop_body a s = a) → run_loop (l1 ++ s :: l2) = run_loop (l1 ++ l2).
Proof.
  intros Hs. unfold run_loop. rewrite !foldl_app. simpl. by rewrite Hs.
Qed.

(** What a symbol wrote is what the output holds, unless a symbol processed
    later wrote the same key. *)
Lemma run_loop_lookup_last l1 s l2 k v :
  defines (loop_body acc0 s) !! k = Some v →
  defines (run_loop l2) !! k = None →
  defines (run_loop (l1 ++ s :: l2)) !! k = Some v.
Proof.
  intros Hs Hl2.
  rewrite run_loop_app_defines, run_loop_cons_defines, <- (assoc_L (∪)).
  rewrite lookup_union_r by done. by apply lookup_union_Some_l.
Qed.

Lemma run_loop_cmake_sets_elem l s line :
  s ∈ l → line ∈ cmake_sets (loop_body acc0 s) → line ∈ cmake_sets (run_loop l).
Proof.
  intros (l1 & l2 & ->)%list_elem_of_split Hline.
  rewrite run_loop_app_cmake_sets, run_loop_cons_cmake_sets.
  rewrite !elem_of_app. auto.
Qed.

(** The assignment sequence is the concatenation, in schema order, of what
    each symbol contributes. *)
Lemma run_loop_cmake_sets_flat_map l :
  cmake_sets (run_loop l) = flat_map (λ s, cmake_sets (loop_body acc0 s)) l.
Proof.
  induction l as [|s l IH]; [done|].
  by rewrite run_loop_cons_cmake_sets, IH.
Qed.

(** The keys of the aggregated collection do not depend on the order of
    the schema. *)
Lemma run_loop_dom_perm l l' :
  l ≡ₚ l' → dom (defines (run_loop l)) = dom (defines (run_loop l')).
Proof.
  induction 1 as [|s l l' _ IH|s1 s2 l|l l' l'' _ IH1 _ IH2].
  - done.
  - by rewrite !run_loop_cons_defines, !dom_union_L, IH.
  - rewrite !run_loop_cons_defines, !dom_union_L.
    apply set_eq. intros k. rewrite !elem_of_union. tauto.
  - congruence.
Qed.

End pass.

(** ** The aggregated collection *)

Section aggregated.

Implicit Types (d : gmap string string) (a : Acc) (k v : string).

Lemma elem_of_sorted d k : k ∈ sorted d ↔ is_Some (d !! k).
Proof.
  unfold sorted. by rewrite merge_sort_Permutation, elem_of_elements, elem_of_dom.
Qed.

Lemma NoDup_sorted d : NoDup (sorted d).
Proof. unfold sorted. rewrite merge_sort_Permutation. apply NoDup_elements. Qed.

Lemma StronglySorted_sorted d : StronglySorted String.le (sorted d).
Proof. apply (StronglySorted_merge_sort _). Qed.

Lemma StronglySorted_strict (l : list string) :
  StronglySorted String.le l → NoDup l → StronglySorted (strict String.le) l.
Proof.
  induction 1 as [|x l Hl IH Hx]; intros Hnd; constructor.
  - apply IH. by apply NoDup_cons_1_2 in Hnd.
  - apply NoDup_cons_1_1 in Hnd. apply Forall_forall. intros y Hy.
    rewrite Forall_forall in Hx. split; [by apply Hx|].
    intros Hyx. assert (x = y) as -> by (apply (anti_symm String.le); auto).
    done.
Qed.

Lemma define_line_lookup d k v : d !! k = Some v → define_line d k = entry_line k v.
Proof. intros Hk. unfold define_line, entry_line. by rewrite (lookup_total_correct _ _ _ Hk). Qed.

Lemma entry_in_aggregated a k v :
  defines a !! k = Some v → entry_line k v ∈ aggregated_lines a.
Proof.
  intros Hk. unfold aggregated_lines. apply list_elem_of_fmap.
  exists k. split; [by rewrite (define_line_lookup _ _ _ Hk)|].
  apply elem_of_sorted. eauto.
Qed.

End aggregated.

(** ** [_generate_cache]: the three exits *)

Section exits.

Implicit Types (w : World) (lib : Kconfiglib).

(** With the schema present the script writes the rendering of the
    resolved symbols to the output path and succeeds. *)
Lemma generate_cache_full lib w kconfig_path config_path output_path :
  is_file w kconfig_path = true →
  (_generate_cache (Some lib) w kconfig_path config_path output_path).2 = 0 ∧
  files (_generate_cache (Some lib) w kconfig_path config_path output_path).1 =
    <[output_path := render (resolved_syms lib w kconfig_path config_path)]> (files w).
Proof.
  intros Hk. unfold _generate_cache, resolved_syms, render. rewrite Hk. simpl.
  by destruct (is_file w config_path).
Qed.

End exits.

(** C2.  When kconfiglib cannot be imported, [_generate_cache] returns 1,
    writes one diagnostic to the error stream and leaves every file and
    directory, the output path included, as it was. *)
Theorem missing_interpreter_fails (w : World) (kconfig_path config_path output_path : Path) :
  let r := _generate_cache None w kconfig_path config_path output_path in
  r.2 = 1 ∧
  stderr r.1 = (stderr w ++ ["kconfiglib is not installed." +:+ NL])%list ∧
  files r.1 = files w ∧
  dirs r.1 = dirs w ∧
  files r.1 !! output_path = files w !! output_path.
Proof. done. Qed.

(** C3.  When kconfiglib is available and the schema path is not a file,
    [_generate_cache] returns 0 and the output file holds exactly the two
    newline-terminated placeholder lines; no other file changes. *)
Theorem missing_schema_placeholder (lib : Kconfiglib) (w : World)
    (kconfig_path config_path output_path : Path) :
  is_file w kconfig_path = false →
  let r := _generate_cache (Some lib) w kconfig_path config_path output_path in
  r.2 = 0 ∧
  files r.1 !! output_path =
    Some ("# Auto-generated placeholder. Run menuconfig to populate symbols." +:+ NL +:+
          "set(AEROSYNC_KCONFIG_DEFINES)" +:+ NL) ∧
  (∀ p, p ≠ output_path → files r.1 !! p = files w !! p).
Proof.
  intros Hk r. subst r. unfold _generate_cache. rewrite Hk. simpl.
  split; [done|]. split.
  - by rewrite lookup_insert_eq.
  - intros p Hp. by rewrite lookup_insert_ne.
Qed.

Lemma missing_schema_placeholder_witness :
  is_file world_without_schema ["Kconfig"] = false ∧
  (_generate_cache (Some (const_lib [sym_FOO])) world_without_schema
     ["Kconfig"] [".config"] ["build"; "kconfig.cmake"]).2 = 0.
Proof.
  split; [reflexivity|].
  apply (missing_schema_placeholder (const_lib [sym_FOO]) world_without_schema
           ["Kconfig"] [".config"] ["build"; "kconfig.cmake"]).
  reflexivity.
Defined.

(** C9.  With kconfiglib available and the schema file present, a schema
    that defines no symbol gives an output whose aggregated collection has no
    entry and whose assignment sequence has no line: the file is the banner,
    the opening and the closing of the collection, and blank lines. *)
Theorem empty_schema_output (lib : Kconfiglib) (w : World)
    (kconfig_path config_path output_path : Path) :
  is_file w kconfig_path = true →
  resolved_syms lib w kconfig_path config_path = [] →
  let r := _generate_cache (Some lib) w kconfig_path config_path output_path in
  let a := run_loop (resolved_syms lib w kconfig_path config_path) in
  r.2 = 0 ∧
  files r.1 !! output_path = Some (String.concat NL (output_lines a)) ∧
  aggregated_lines a = [] ∧
  cmake_sets a = [] ∧
  String.concat NL (output_lines a) =
    "# This file is auto-generated. Do not edit." +:+ NL +:+
    "set(AEROSYNC_KCONFIG_DEFINES" +:+ NL +:+ ")" +:+ NL +:+ NL +:+ NL.
Proof.
  intros Hk Hsyms r a.
  destruct (generate_cache_full lib w kconfig_path config_path output_path Hk)
    as [Hrc Hfiles].
  subst r a. rewrite Hrc, Hfiles, lookup_insert_eq. unfold render.
  rewrite Hsyms. by vm_compute.
Qed.

Lemma empty_schema_output_witness :
  is_file world_with_schema ["Kconfig"] = true ∧
  resolved_syms (const_lib []) world_with_schema ["Kconfig"] [".config"] = [] ∧
  cmake_sets (run_loop
    (resolved_syms (const_lib []) world_with_schema ["Kconfig"] [".config"])) = [].
Proof.
  split; [reflexivity|]. split; [reflexivity|].
  apply (empty_schema_output (const_lib []) world_with_schema
           ["Kconfig"] [".config"] ["build"; "kconfig.cmake"]); reflexivity.
Defined.

(** ** The loop body, case by case *)

Section cases.

Implicit Types (a : Acc) (s : Symbol) (n k v : string).

(** A membership in a list of types that cannot hold, or one denied that
    does. *)
Ltac absurd_type :=
  match goal with
  | H : _ ∈ _ |- _ =>
      repeat (apply elem_of_cons in H as [H|H]; [discriminate H|]);
      by apply elem_of_nil in H
  | H : _ ∉ _ |- _ => by (exfalso; apply H; repeat constructor)
  end.

Ltac loop_body_cases s :=
  unfold loop_body;
  destruct (kconfiglib.type s) eqn:?;
  repeat case_decide; simplify_eq; try done; try congruence;
  try absurd_type.

Lemma loop_body_unnamed a s : kconfiglib.name s = "" → loop_body a s = a.
Proof. intros Hn. unfold loop_body. by rewrite decide_True. Qed.


Lemma loop_body_selected a s :
  kconfiglib.name s ≠ "" →
  kconfiglib.type s ∈ [BOOL; TRISTATE] → kconfiglib.tri_value s = 2 →
  loop_body a s =
    append_set (emit_symbol a (kconfiglib.name s) "1" true)
               (set_line (kconfiglib.name s) "y").
Proof. intros Hn Ht Htri. loop_body_cases s. Qed.

Lemma loop_body_module a s :
  kconfiglib.name s ≠ "" →
  kconfiglib.type s ∈ [BOOL; TRISTATE] → kconfiglib.tri_value s = 1 →
  loop_body a s =
    append_set
      (emit_symbol (emit_symbol a (kconfiglib.name s) "m" true)
                   (kconfiglib.name s +:+ "_MODULE") "1" true)
      (set_line (kconfiglib.name s) "m").
Proof. intros Hn Ht Htri. loop_body_cases s. Qed.

Lemma loop_body_empty_value a s :
  kconfiglib.type s ∈ [INT; HEX; STRING] →
  kconfiglib.str_value s = None ∨ kconfiglib.str_value s = Some "" →
  loop_body a s = a.
Proof. intros Ht [Hv|Hv]; loop_body_cases s; by rewrite Hv. Qed.

Lemma loop_body_valued a s v :
  kconfiglib.name s ≠ "" →
  kconfiglib.type s ∈ [INT; HEX; STRING] →
  kconfiglib.str_value s = Some v → v ≠ "" →
  loop_body a s =
    append_set
      (emit_symbol a (kconfiglib.name s)
         (if decide (kconfiglib.type s = STRING) then DQ +:+ v +:+ DQ else v) true)
      (set_line (kconfiglib.name s) (_cmake_escape v)).
Proof.
  intros Hn Ht Hv Hne. destruct v as [|c v]; [done|].
  loop_body_cases s; by rewrite Hv.
Qed.

(** The keys one symbol writes are pairwise distinct. *)
Lemma key_ne_config n : n ≠ "CONFIG_" +:+ n.
Proof. intros H%(f_equal String.length). rewrite string_app_length in H. simpl in H. lia. Qed.

Lemma key_ne_module n : n ≠ n +:+ "_MODULE".
Proof. intros H%(f_equal String.length). rewrite string_app_length in H. simpl in H. lia. Qed.

Lemma key_ne_config_module n : n ≠ "CONFIG_" +:+ n +:+ "_MODULE".
Proof.
  intros H%(f_equal String.length). rewrite !string_app_length in H. simpl in H. lia.
Qed.

Lemma config_ne_module n : "CONFIG_" +:+ n ≠ n +:+ "_MODULE".
Proof.
  intros H%(f_equal (count_char "C")).
  rewrite !count_char_app in H. simpl in H. lia.
Qed.

Lemma config_ne_config_module n : "CONFIG_" +:+ n ≠ "CONFIG_" +:+ n +:+ "_MODULE".
Proof. intros H%(inj _). by apply key_ne_module in H. Qed.

Lemma module_ne_config_module n : n +:+ "_MODULE" ≠ "CONFIG_" +:+ n +:+ "_MODULE".
Proof.
  intros H%(f_equal String.length). rewrite !string_app_length in H. simpl in H. lia.
Qed.

Lemma quoted_ne v : DQ +:+ v +:+ DQ ≠ v.
Proof.
  intros H%(f_equal String.length). rewrite !string_app_length in H. simpl in H. lia.
Qed.

(** What [emit_symbol] with [plain=True] leaves in [defines]. *)
Lemma emit_symbol_lookup a n v k :
  defines (emit_symbol a n v true) !! k =
    if decide (k = n ∨ k = "CONFIG_" +:+ n) then Some v else defines a !! k.
Proof.
  unfold emit_symbol, set_define. simpl.
  destruct (decide (k = "CONFIG_" +:+ n)) as [->|Hc].
  { rewrite lookup_insert_eq, decide_True; auto. }
  rewrite lookup_insert_ne by done.
  destruct (decide (k = n)) as [->|Hn].
  { rewrite lookup_insert_eq, decide_True; auto. }
  rewrite lookup_insert_ne by done. rewrite decide_False; [done|]. by intros [?|?].
Qed.

Lemma loop_body_cmake_sets_shape s :
  cmake_sets (loop_body acc0 s) = [] ∨
  ∃ text, cmake_sets (loop_body acc0 s) = [set_line (kconfiglib.name s) text].
Proof.
  unfold loop_body.
  repeat case_decide; try destruct (kconfiglib.str_value s) as [[|c r]|];
    simpl; eauto.
Qed.

End cases.

(** ** Ordering of the two parts of the output *)

(** C5.  For every schema the names of the aggregated collection come out
    strictly increasing in lexicographic order, and they are the same list
    for every reordering of the schema; the serialised entries follow that
    list.  The assignment sequence is the concatenation, in schema order, of
    the at most one statement each symbol contributes, a statement that names
    the symbol. *)
Theorem output_ordering (syms : list Symbol) :
  let a := run_loop syms in
  StronglySorted (strict String.le) (sorted (defines a)) ∧
  (∀ syms', syms' ≡ₚ syms → sorted (defines (run_loop syms')) = sorted (defines a)) ∧
  cmake_sets a = flat_map (λ s, cmake_sets (loop_body acc0 s)) syms ∧
  (∀ s, cmake_sets (loop_body acc0 s) = [] ∨
        ∃ text, cmake_sets (loop_body acc0 s) = [set_line (kconfiglib.name s) text]) ∧
  output_lines a =
    (["# This file is auto-generated. Do not edit."; "set(AEROSYNC_KCONFIG_DEFINES"]
     ++ (define_line (defines a) <$> sorted (defines a))
     ++ [")" +:+ NL]
     ++ flat_map (λ s, cmake_sets (loop_body acc0 s)) syms
     ++ [NL])%list.
Proof.
  intros a. subst a. split; [|split; [|split; [|split]]].
  - apply StronglySorted_strict; [apply StronglySorted_sorted|apply NoDup_sorted].
  - intros syms' Hperm. unfold sorted. by rewrite (run_loop_dom_perm _ _ Hperm).
  - apply run_loop_cmake_sets_flat_map.
  - apply loop_body_cmake_sets_shape.
  - unfold output_lines. by rewrite run_loop_cmake_sets_flat_map.
Qed.

(** ** Escaping in assignment statements *)

(** C6.  [_cmake_escape] rewrites a value character by character, a
    backslash into two backslashes and a double quote into a backslash and a
    double quote; the assignment statement of a string symbol with a
    non-empty value [v] is in the output, and reading its quoted literal back
    gives [v] exactly. *)
Theorem string_assignment_roundtrip (syms : list Symbol) (s : Symbol) (n v : string) :
  s ∈ syms →
  kconfiglib.name s = n → n ≠ "" →
  kconfiglib.type s = STRING →
  kconfiglib.str_value s = Some v → v ≠ "" →
  set_line n (_cmake_escape v) ∈ cmake_sets (run_loop syms) ∧
  read_set_line n (set_line n (_cmake_escape v)) = Some v ∧
  (∀ c rest, _cmake_escape (String c rest) = escape_char c +:+ _cmake_escape rest) ∧
  escape_char bslash = BS +:+ BS ∧
  escape_char dquote = BS +:+ DQ ∧
  (∀ c, c ≠ bslash → c ≠ dquote → escape_char c = String c "").
Proof.
  intros Hs Hn Hne Ht Hv Hvne. subst n.
  split; [|split; [|split; [|split; [|split]]]].
  - apply (run_loop_cmake_sets_elem syms s); [done|].
    rewrite (loop_body_valued acc0 s v) by (rewrite ?Ht; try done; repeat constructor).
    simpl. apply list_elem_of_singleton. done.
  - apply read_set_line_escape.
  - apply cmake_escape_cons.
  - done.
  - done.
  - intros c Hb Hq. unfold escape_char. by rewrite !decide_False.
Qed.

Lemma string_assignment_roundtrip_witness :
  sym_NAME ∈ [sym_FOO; sym_NAME] ∧
  set_line "NAME" ("it's " +:+ BS +:+ DQ +:+ "quoted" +:+ BS +:+ DQ)
    ∈ cmake_sets (run_loop [sym_FOO; sym_NAME]) ∧
  read_set_line "NAME"
    (set_line "NAME" ("it's " +:+ BS +:+ DQ +:+ "quoted" +:+ BS +:+ DQ))
    = Some quoted_value.
Proof.
  assert (sym_NAME ∈ [sym_FOO; sym_NAME]) as Hin by (repeat constructor).
  split; [exact Hin|].
  destruct (string_assignment_roundtrip [sym_FOO; sym_NAME] sym_NAME "NAME"
              quoted_value Hin eq_refl ltac:(discriminate) eq_refl eq_refl
              ltac:(discriminate)) as (Hline & Hread & _).
  split; [exact Hline | exact Hread].
Defined.

(** ** What each kind of symbol leaves in the output *)

Section entries.

Implicit Types (a : Acc) (s : Symbol) (l : list Symbol) (n k v : string).

Lemma loop_body_selected_lookup a s k :
  kconfiglib.name s ≠ "" →
  kconfiglib.type s ∈ [BOOL; TRISTATE] → kconfiglib.tri_value s = 2 →
  defines (loop_body a s) !! k =
    if decide (k = kconfiglib.name s ∨ k = "CONFIG_" +:+ kconfiglib.name s)
    then Some "1" else defines a !! k.
Proof.
  intros Hn Ht Htri. rewrite loop_body_selected by done.
  apply emit_symbol_lookup.
Qed.

Lemma loop_body_module_lookup a s k :
  kconfiglib.name s ≠ "" →
  kconfiglib.type s ∈ [BOOL; TRISTATE] → kconfiglib.tri_value s = 1 →
  defines (loop_body a s) !! k =
    if decide (k = kconfiglib.name s +:+ "_MODULE" ∨
               k = "CONFIG_" +:+ kconfiglib.name s +:+ "_MODULE")
    then Some "1"
    else if decide (k = kconfiglib.name s ∨ k = "CONFIG_" +:+ kconfiglib.name s)
    then Some "m" else defines a !! k.
Proof.
  intros Hn Ht Htri. rewrite loop_body_module by done.
  change (defines (append_set ?b _)) with (defines b).
  rewrite emit_symbol_lookup. case_decide; [done|]. apply emit_symbol_lookup.
Qed.

Lemma loop_body_valued_lookup a s v k :
  kconfiglib.name s ≠ "" →
  kconfiglib.type s ∈ [INT; HEX; STRING] →
  kconfiglib.str_value s = Some v → v ≠ "" →
  defines (loop_body a s) !! k =
    if decide (k = kconfiglib.name s ∨ k = "CONFIG_" +:+ kconfiglib.name s)
    then Some (if decide (kconfiglib.type s = STRING) then DQ +:+ v +:+ DQ else v)
    else defines a !! k.
Proof.
  intros Hn Ht Hv Hne. rewrite (loop_body_valued a s v) by done.
  apply emit_symbol_lookup.
Qed.

(** An entry a symbol wrote reaches the aggregated collection when no
    symbol processed after it writes the same key. *)
Lemma written_entry_survives l1 s l2 k v :
  defines (loop_body acc0 s) !! k = Some v →
  defines (run_loop l2) !! k = None →
  defines (run_loop (l1 ++ s :: l2)) !! k = Some v ∧
  entry_line k v ∈ aggregated_lines (run_loop (l1 ++ s :: l2)).
Proof.
  intros Hs Hl2.
  assert (defines (run_loop (l1 ++ s :: l2)) !! k = Some v) as Hk
    by by apply run_loop_lookup_last.
  split; [done|]. by apply entry_in_aggregated.
Qed.

Lemma assignment_in_output l1 s l2 line :
  line ∈ cmake_sets (loop_body acc0 s) →
  line ∈ cmake_sets (run_loop (l1 ++ s :: l2)).
Proof.
  apply run_loop_cmake_sets_elem. rewrite elem_of_app, elem_of_cons. auto.
Qed.

End entries.

(** C1, as the code has it.  A tri-state symbol named [n] resolved as
    module-selected writes four entries under four distinct keys, [n=m],
    [CONFIG_n=m], [n_MODULE=1] and [CONFIG_n_MODULE=1], and touches no other
    key; each of them is in the aggregated collection of the output unless
    a symbol processed later writes the same key; the assignment sequence
    contains the statement setting [CONFIG_n] to m. *)
Theorem module_selected_entries (l1 l2 : list Symbol) (s : Symbol) (n : string) :
  kconfiglib.name s = n → n ≠ "" →
  kconfiglib.type s = TRISTATE → kconfiglib.tri_value s = 1 →
  let a := run_loop (l1 ++ s :: l2) in
  let written :=
    [(n, "m"); ("CONFIG_" +:+ n, "m");
     (n +:+ "_MODULE", "1"); ("CONFIG_" +:+ n +:+ "_MODULE", "1")] in
  NoDup written.*1 ∧
  (∀ a0 k v, (k, v) ∈ written → defines (loop_body a0 s) !! k = Some v) ∧
  (∀ a0 k, k ∉ written.*1 → defines (loop_body a0 s) !! k = defines a0 !! k) ∧
  (∀ k v, (k, v) ∈ written → defines (run_loop l2) !! k = None →
          defines a !! k = Some v ∧ entry_line k v ∈ aggregated_lines a) ∧
  set_line n "m" ∈ cmake_sets a.
Proof.
  intros Hn Hne Ht Htri a written. subst n.
  assert (kconfiglib.type s ∈ [BOOL; TRISTATE]) as Hty
    by (rewrite Ht; repeat constructor).
  set (n := kconfiglib.name s) in *.
  pose proof (key_ne_config n). pose proof (key_ne_module n).
  pose proof (key_ne_config_module n). pose proof (config_ne_module n).
  pose proof (config_ne_config_module n). pose proof (module_ne_config_module n).
  assert (∀ a0 k v, (k, v) ∈ written → defines (loop_body a0 s) !! k = Some v)
    as Hwritten.
  { intros a0 k v Hkv. rewrite loop_body_module_lookup by done. fold n.
    subst written. rewrite !elem_of_cons, elem_of_nil in Hkv.
    destruct Hkv as [?|[?|[?|[?|[]]]]]; simplify_eq;
      repeat case_decide; try done; exfalso; intuition congruence. }
  split; [|split; [|split; [|split]]].
  - subst written. simpl. rewrite !NoDup_cons, !elem_of_cons, !elem_of_nil.
    repeat split; try apply NoDup_nil_2; intuition congruence.
  - done.
  - intros a0 k Hk. rewrite loop_body_module_lookup by done. fold n.
    subst written. simpl in Hk. rewrite !elem_of_cons, elem_of_nil in Hk.
    rewrite !decide_False; [done|intuition congruence..].
  - intros k v Hkv Hl2. apply written_entry_survives; [by apply Hwritten|done].
  - apply assignment_in_output. rewrite loop_body_module by done.
    simpl. by apply list_elem_of_singleton.
Qed.

Lemma module_selected_entries_witness :
  kconfiglib.type sym_BAR = TRISTATE ∧ kconfiglib.tri_value sym_BAR = 1 ∧
  set_line "BAR" "m" ∈ cmake_sets (run_loop ([sym_FOO] ++ sym_BAR :: [sym_BASE])).
Proof.
  split; [reflexivity|]. split; [reflexivity|].
  apply (module_selected_entries [sym_FOO] [sym_BASE] sym_BAR "BAR");
    [reflexivity | discriminate | reflexivity | reflexivity].
Defined.

(** C1, as the specification words it, fails on the schema whose only symbol
    is the module-selected tri-state BAR: the aggregated collection has four
    entries, BAR and CONFIG_BAR carry m, and CONFIG_BAR_MODULE is among
    them. *)
Lemma module_selected_counterexample :
  kconfiglib.type sym_BAR = TRISTATE ∧ kconfiglib.tri_value sym_BAR = 1 ∧
  aggregated_lines (run_loop [sym_BAR]) =
    [entry_line "BAR" "m"; entry_line "BAR_MODULE" "1";
     entry_line "CONFIG_BAR" "m"; entry_line "CONFIG_BAR_MODULE" "1"] ∧
  ¬ (aggregated_lines (run_loop [sym_BAR]) ≡ₚ
       [entry_line "BAR" "1"; entry_line "CONFIG_BAR" "1"; entry_line "BAR_MODULE" "1"] ∧
     set_line "BAR" "m" ∈ cmake_sets (run_loop [sym_BAR])).
Proof.
  split; [reflexivity|]. split; [reflexivity|]. split; [by vm_compute|].
  intros [Hperm _]. apply Permutation_length in Hperm.
  vm_compute in Hperm. discriminate Hperm.
Qed.

(** C4, as the code has it.  A boolean symbol named [n] resolved as
    fully-selected writes [n=1] and [CONFIG_n=1]; each of the two is in the
    aggregated collection of the output unless a symbol processed later
    writes the same key; the statement setting [CONFIG_n] to y is in the
    assignment sequence in every case. *)
Theorem selected_bool_entries (l1 l2 : list Symbol) (s : Symbol) (n : string) :
  kconfiglib.name s = n → n ≠ "" →
  kconfiglib.type s = BOOL → kconfiglib.tri_value s = 2 →
  let a := run_loop (l1 ++ s :: l2) in
  set_line n "y" ∈ cmake_sets a ∧
  (∀ a0, defines (loop_body a0 s) !! n = Some "1" ∧
         defines (loop_body a0 s) !! ("CONFIG_" +:+ n) = Some "1") ∧
  (defines (run_loop l2) !! n = None →
     defines a !! n = Some "1" ∧ entry_line n "1" ∈ aggregated_lines a) ∧
  (defines (run_loop l2) !! ("CONFIG_" +:+ n) = None →
     defines a !! ("CONFIG_" +:+ n) = Some "1" ∧
     entry_line ("CONFIG_" +:+ n) "1" ∈ aggregated_lines a).
Proof.
  intros Hn Hne Ht Htri a. subst n.
  assert (kconfiglib.type s ∈ [BOOL; TRISTATE]) as Hty
    by (rewrite Ht; repeat constructor).
  assert (∀ a0, defines (loop_body a0 s) !! kconfiglib.name s = Some "1" ∧
                defines (loop_body a0 s) !! ("CONFIG_" +:+ kconfiglib.name s) = Some "1")
    as Hwritten.
  { intros a0. rewrite !loop_body_selected_lookup by done.
    rewrite !decide_True; auto. }
  split; [|split; [done|split]].
  - apply assignment_in_output. rewrite loop_body_selected by done.
    simpl. by apply list_elem_of_singleton.
  - intros Hl2. apply written_entry_survives; [apply Hwritten|done].
  - intros Hl2. apply written_entry_survives; [apply Hwritten|done].
Qed.

Lemma selected_bool_entries_witness :
  kconfiglib.type sym_FOO = BOOL ∧ kconfiglib.tri_value sym_FOO = 2 ∧
  defines (run_loop [sym_BAR]) !! "FOO" = None ∧
  entry_line "FOO" "1" ∈ aggregated_lines (run_loop ([sym_BASE] ++ sym_FOO :: [sym_BAR])).
Proof.
  split; [reflexivity|]. split; [reflexivity|]. split; [reflexivity|].
  destruct (selected_bool_entries [sym_BASE] [sym_BAR] sym_FOO "FOO"
              eq_refl ltac:(discriminate) eq_refl eq_refl) as (_ & _ & Hplain & _).
  apply Hplain. reflexivity.
Defined.

(** C4, as the specification words it, fails on the schema that declares the
    fully-selected boolean FOO and after it the integer CONFIG_FOO with value
    5: the later symbol writes the key CONFIG_FOO too, and the aggregated
    collection holds CONFIG_FOO=5, not CONFIG_FOO=1. *)
Lemma selected_bool_counterexample :
  sym_FOO ∈ [sym_FOO; sym_CONFIG_FOO] ∧
  kconfiglib.type sym_FOO = BOOL ∧ kconfiglib.tri_value sym_FOO = 2 ∧
  aggregated_lines (run_loop [sym_FOO; sym_CONFIG_FOO]) =
    [entry_line "CONFIG_CONFIG_FOO" "5"; entry_line "CONFIG_FOO" "5";
     entry_line "FOO" "1"] ∧
  ¬ (entry_line "FOO" "1" ∈ aggregated_lines (run_loop [sym_FOO; sym_CONFIG_FOO]) ∧
     entry_line "CONFIG_FOO" "1" ∈ aggregated_lines (run_loop [sym_FOO; sym_CONFIG_FOO]) ∧
     set_line "FOO" "y" ∈ cmake_sets (run_loop [sym_FOO; sym_CONFIG_FOO])).
Proof.
  assert (aggregated_lines (run_loop [sym_FOO; sym_CONFIG_FOO]) =
    [entry_line "CONFIG_CONFIG_FOO" "5"; entry_line "CONFIG_FOO" "5";
     entry_line "FOO" "1"]) as Heval by (by vm_compute).
  split; [repeat constructor|]. split; [reflexivity|]. split; [reflexivity|].
  split; [exact Heval|].
  intros (_ & Hc & _). rewrite Heval in Hc.
  repeat (apply elem_of_cons in Hc as [Hc|Hc];
          [vm_compute in Hc; discriminate Hc|]).
  by apply elem_of_nil in Hc.
Qed.

(** C8.  For an integer, hexadecimal or string symbol named [n]: with an
    empty resolved value the loop body does nothing and the artifact is the
    one the schema gives without the symbol; with a non-empty value [v] the
    body writes the keys [n] and [CONFIG_n], and no other, to the same stored
    value, which is [v] between literal double quotes for the string type and
    [v] itself for the two others; either entry is in the aggregated
    collection of the output when no symbol processed later writes its key. *)
Theorem valued_symbol_entries (l1 l2 : list Symbol) (s : Symbol) (n : string) :
  kconfiglib.name s = n → n ≠ "" →
  kconfiglib.type s = INT ∨ kconfiglib.type s = HEX ∨ kconfiglib.type s = STRING →
  (kconfiglib.str_value s = None ∨ kconfiglib.str_value s = Some "" →
     (∀ a, loop_body a s = a) ∧ render (l1 ++ s :: l2) = render (l1 ++ l2)) ∧
  (∀ v, kconfiglib.str_value s = Some v → v ≠ "" →
     let stored :=
       if decide (kconfiglib.type s = STRING) then DQ +:+ v +:+ DQ else v in
     (∀ a, defines (loop_body a s) !! n = Some stored ∧
           defines (loop_body a s) !! ("CONFIG_" +:+ n) = Some stored ∧
           ∀ k, k ≠ n → k ≠ "CONFIG_" +:+ n →
                defines (loop_body a s) !! k = defines a !! k) ∧
     (∀ k, k = n ∨ k = "CONFIG_" +:+ n →
           defines (run_loop l2) !! k = None →
           defines (run_loop (l1 ++ s :: l2)) !! k = Some stored ∧
           entry_line k stored ∈ aggregated_lines (run_loop (l1 ++ s :: l2)))).
Proof.
  intros Hn Hne Ht. subst n.
  assert (kconfiglib.type s ∈ [INT; HEX; STRING]) as Hty
    by (destruct Ht as [-> | [-> | ->]]; repeat constructor).
  split.
  - intros Hv.
    assert (∀ a, loop_body a s = a) as Hskip
      by (intros a; by apply loop_body_empty_value).
    split; [done|]. unfold render. by rewrite (run_loop_skip l1 s l2 Hskip).
  - intros v Hv Hvne stored.
    assert (∀ a k, k = kconfiglib.name s ∨ k = "CONFIG_" +:+ kconfiglib.name s →
                   defines (loop_body a s) !! k = Some stored) as Hwritten.
    { intros a k Hk. rewrite (loop_body_valued_lookup a s v) by done.
      by rewrite decide_True. }
    split.
    + intros a. split; [apply Hwritten; auto|]. split; [apply Hwritten; auto|].
      intros k Hk1 Hk2. rewrite (loop_body_valued_lookup a s v) by done.
      rewrite decide_False; [done|]. by intros [?|?].
    + intros k Hk Hl2. apply written_entry_survives; [by apply Hwritten|done].
Qed.

Lemma valued_symbol_entries_witness :
  kconfiglib.type sym_BASE = HEX ∧
  kconfiglib.str_value sym_BASE = Some "0x1000" ∧
  defines (run_loop [sym_FOO]) !! "BASE" = None ∧
  entry_line "BASE" "0x1000" ∈ aggregated_lines (run_loop ([sym_BAR] ++ sym_BASE :: [sym_FOO])).
Proof.
  split; [reflexivity|]. split; [reflexivity|]. split; [reflexivity|].
  destruct (valued_symbol_entries [sym_BAR] [sym_FOO] sym_BASE "BASE"
              eq_refl ltac:(discriminate) ltac:(right; left; reflexivity))
    as [_ Hvalued].
  destruct (Hvalued "0x1000" eq_refl ltac:(discriminate)) as [_ Hout].
  apply (Hout "BASE"); [by left | reflexivity].
Defined.

(** ** String values in the two parts of the output *)

Section quoting.

Lemma read_entry_value_escape (name value : string) :
  read_entry_value name (entry_line name value) = Some value.
Proof.
  unfold read_entry_value. rewrite read_entry_line_escape. simpl.
  rewrite <- string_app_assoc. apply strip_prefix_app.
Qed.

Lemma cmake_escape_quoted (v : string) :
  _cmake_escape (DQ +:+ v +:+ DQ) = BS +:+ DQ +:+ _cmake_escape v +:+ BS +:+ DQ.
Proof. by rewrite !cmake_escape_app. Qed.

End quoting.

(** C10.  A string symbol named [n] with non-empty value [v] stores [v]
    between double quotes under [n] and [CONFIG_n]; the serialised entry
    escapes the whole stored value, wrapping quotes included; reading the
    entry back as a quoted literal gives [v] with the double quotes around
    it, whereas reading the symbol's assignment statement gives [v], and the
    two differ. *)
Theorem string_entry_quoted (l1 l2 : list Symbol) (s : Symbol) (n v : string) :
  kconfiglib.name s = n → n ≠ "" →
  kconfiglib.type s = STRING →
  kconfiglib.str_value s = Some v → v ≠ "" →
  let a := run_loop (l1 ++ s :: l2) in
  let stored := DQ +:+ v +:+ DQ in
  (∀ a0, defines (loop_body a0 s) !! n = Some stored ∧
         defines (loop_body a0 s) !! ("CONFIG_" +:+ n) = Some stored) ∧
  (∀ k, k = n ∨ k = "CONFIG_" +:+ n →
        defines (run_loop l2) !! k = None →
        entry_line k stored ∈ aggregated_lines a) ∧
  (∀ k, entry_line k stored =
          "    " +:+ DQ +:+ _cmake_escape k +:+ "=" +:+
          BS +:+ DQ +:+ _cmake_escape v +:+ BS +:+ DQ +:+ DQ) ∧
  (∀ k, read_entry_value k (entry_line k stored) = Some stored) ∧
  set_line n (_cmake_escape v) ∈ cmake_sets a ∧
  read_set_line n (set_line n (_cmake_escape v)) = Some v ∧
  stored ≠ v.
Proof.
  intros Hn Hne Ht Hv Hvne a stored. subst n.
  assert (kconfiglib.type s ∈ [INT; HEX; STRING]) as Hty
    by (rewrite Ht; repeat constructor).
  assert (∀ a0 k, k = kconfiglib.name s ∨ k = "CONFIG_" +:+ kconfiglib.name s →
                  defines (loop_body a0 s) !! k = Some stored) as Hwritten.
  { intros a0 k Hk. rewrite (loop_body_valued_lookup a0 s v) by done.
    by rewrite decide_True, decide_True. }
  split; [|split; [|split; [|split; [|split; [|split]]]]].
  - intros a0. split; apply Hwritten; auto.
  - intros k Hk Hl2. by apply written_entry_survives; [apply Hwritten|].
  - intros k. unfold entry_line. subst stored.
    by rewrite cmake_escape_quoted, !string_app_assoc.
  - intros k. apply read_entry_value_escape.
  - apply assignment_in_output. rewrite (loop_body_valued acc0 s v) by done.
    simpl. by apply list_elem_of_singleton.
  - apply read_set_line_escape.
  - apply quoted_ne.
Qed.

Lemma string_entry_quoted_witness :
  kconfiglib.type sym_NAME = STRING ∧
  kconfiglib.str_value sym_NAME = Some quoted_value ∧
  read_entry_value "NAME" (entry_line "NAME" (DQ +:+ quoted_value +:+ DQ))
    = Some (DQ +:+ quoted_value +:+ DQ) ∧
  read_set_line "NAME" (set_line "NAME" (_cmake_escape quoted_value))
    = Some quoted_value.
Proof.
  split; [reflexivity|]. split; [reflexivity|].
  destruct (string_entry_quoted [sym_FOO] [sym_BAR] sym_NAME "NAME" quoted_value
              eq_refl ltac:(discriminate) eq_refl eq_refl ltac:(discriminate))
    as (_ & _ & _ & Hentry & _ & Hset & _).
  split; [apply Hentry | exact Hset].
Defined.

(** * Further properties of the script *)

(** ** [_generate_cache]: its three branches as equations *)

Section branches.

Implicit Types (w : World) (lib : Kconfiglib).

Lemma generate_cache_no_schema lib w kconfig_path config_path output_path :
  is_file w kconfig_path = false →
  _generate_cache (Some lib) w kconfig_path config_path output_path =
    (_write_minimal_output
       (stderr_write w ("warning: Kconfig file '" +:+ path_str kconfig_path +:+
                        "' not found; emitting empty cache." +:+ NL))
       output_path, 0).
Proof. intros Hk. unfold _generate_cache. by rewrite Hk. Qed.

Lemma generate_cache_schema lib w kconfig_path config_path output_path :
  is_file w kconfig_path = true →
  _generate_cache (Some lib) w kconfig_path config_path output_path =
    (write_text
       (mkdir_parents
          (if is_file w config_path then w
           else stderr_write w
                  ("warning: config file '" +:+ path_str config_path +:+
                   "' not found; continuing with defaults." +:+ NL))
          (parent output_path))
       output_path (render (resolved_syms lib w kconfig_path config_path)), 0).
Proof.
  intros Hk. unfold _generate_cache, resolved_syms, render. rewrite Hk. simpl.
  by destruct (is_file w config_path).
Qed.

End branches.

(** X6.  Without a schema file the parser is never consulted: the resulting
    world and exit code are the same for every kconfiglib and every selection
    path, and the error stream gains exactly the warning that names the
    schema path. *)
Theorem missing_schema_ignores_parser (lib : Kconfiglib) (w : World)
    (kconfig_path config_path output_path : Path) :
  is_file w kconfig_path = false →
  (∀ lib' config_path',
     _generate_cache (Some lib') w kconfig_path config_path' output_path =
     _generate_cache (Some lib) w kconfig_path config_path output_path) ∧
  stderr (_generate_cache (Some lib) w kconfig_path config_path output_path).1 =
    (stderr w ++ ["warning: Kconfig file '" +:+ path_str kconfig_path +:+
                  "' not found; emitting empty cache." +:+ NL])%list.
Proof.
  intros Hk. split.
  - intros lib' config_path'. by rewrite !generate_cache_no_schema.
  - by rewrite generate_cache_no_schema.
Qed.

Lemma missing_schema_ignores_parser_witness :
  is_file world_without_schema ["Kconfig"] = false ∧
  _generate_cache (Some (const_lib [sym_BAR])) world_without_schema
    ["Kconfig"] ["other.config"] ["kconfig.cmake"] =
  _generate_cache (Some (const_lib [sym_FOO])) world_without_schema
    ["Kconfig"] [".config"] ["kconfig.cmake"].
Proof.
  split; [reflexivity|].
  apply (missing_schema_ignores_parser (const_lib [sym_FOO]) world_without_schema
           ["Kconfig"] [".config"] ["kconfig.cmake"]).
  reflexivity.
Defined.

(** ** Which symbols the pass skips *)

Section skipping.

Implicit Types (a : Acc) (s : Symbol) (k v : string).

Ltac absurd_member :=
  match goal with
  | H : _ ∈ _ |- _ =>
      repeat (apply elem_of_cons in H as [H|H]; [discriminate H|]);
      by apply elem_of_nil in H
  | H : _ ∉ _ |- _ => by (exfalso; apply H; repeat constructor)
  end.

Lemma loop_body_skipped a s : skipped s → loop_body a s = a.
Proof.
  intros [Hn|[(Ht & H1 & H2)|[(Ht & Hv)|Ht]]].
  - by apply loop_body_unnamed.
  - unfold loop_body. repeat case_decide; done.
  - by apply loop_body_empty_value.
  - unfold loop_body. rewrite Ht. repeat case_decide; try done; absurd_member.
Qed.

(** Every symbol is skipped or falls in one of the three emitting cases. *)
Lemma symbol_cases s :
  skipped s ∨
  (kconfiglib.name s ≠ "" ∧ kconfiglib.type s ∈ [BOOL; TRISTATE] ∧
   kconfiglib.tri_value s = 2) ∨
  (kconfiglib.name s ≠ "" ∧ kconfiglib.type s ∈ [BOOL; TRISTATE] ∧
   kconfiglib.tri_value s = 1) ∨
  (kconfiglib.name s ≠ "" ∧ kconfiglib.type s ∈ [INT; HEX; STRING] ∧
   ∃ v, kconfiglib.str_value s = Some v ∧ v ≠ "").
Proof.
  unfold skipped.
  destruct (decide (kconfiglib.name s = "")) as [Hn|Hn]; [by left; left|].
  destruct (decide (kconfiglib.type s ∈ [BOOL; TRISTATE])) as [Hb|Hb].
  { destruct (decide (kconfiglib.tri_value s = 2)) as [H2|H2]; [by right; left|].
    destruct (decide (kconfiglib.tri_value s = 1)) as [H1|H1];
      [by right; right; left|].
    left. right. left. done. }
  destruct (decide (kconfiglib.type s ∈ [INT; HEX; STRING])) as [Hv|Hv].
  { destruct (kconfiglib.str_value s) as [[|c v]|] eqn:Hs.
    - left. right. right. left. auto.
    - right. right. right. split; [done|]. split; [done|]. by exists (String c v).
    - left. right. right. left. auto. }
  left. right. right. right.
  destruct (kconfiglib.type s); try done; absurd_member.
Qed.

(** A symbol is skipped, or it appends one statement and writes its bare and
    its CONFIG_ key. *)
Lemma symbol_dichotomy s :
  skipped s ∨
  (∀ a, length (cmake_sets (loop_body a s)) = S (length (cmake_sets a)) ∧
        is_Some (defines (loop_body a s) !! kconfiglib.name s) ∧
        is_Some (defines (loop_body a s) !! ("CONFIG_" +:+ kconfiglib.name s))).
Proof.
  destruct (symbol_cases s)
    as [Hs|[(Hn & Ht & Htri)|[(Hn & Ht & Htri)|(Hn & Ht & v & Hv & Hne)]]];
    [by left|right; intros a..].
  - rewrite !loop_body_selected_lookup by done.
    rewrite loop_body_selected by done. cbn [append_set cmake_sets].
    rewrite length_app, !decide_True by auto. simpl.
    split; [lia|]. split; eauto.
  - rewrite !loop_body_module_lookup by done.
    rewrite loop_body_module by done. cbn [append_set cmake_sets].
    rewrite length_app. simpl. split; [lia|].
    pose proof (key_ne_module (kconfiglib.name s)).
    pose proof (key_ne_config_module (kconfiglib.name s)).
    pose proof (config_ne_module (kconfiglib.name s)).
    pose proof (config_ne_config_module (kconfiglib.name s)).
    rewrite !(decide_False (P := _ = _ +:+ "_MODULE" ∨ _)) by intuition congruence.
    rewrite !decide_True by auto. split; eauto.
  - rewrite !(loop_body_valued_lookup a s v) by done.
    rewrite (loop_body_valued a s v) by done. cbn [append_set cmake_sets].
    rewrite length_app, !(decide_True (P := _ ∨ _)) by auto. simpl.
    split; [lia|]. split; eauto.
Qed.

End skipping.

(** X8.  The loop body leaves both accumulators untouched exactly for the
    skipped symbols (no name, tri-state value other than 1 and 2, empty text
    value, or a type outside the five handled); every other symbol appends
    exactly one assignment statement and writes both its bare and its
    CONFIG_ key. *)
Theorem symbol_skipped_iff (s : Symbol) :
  (skipped s ↔ ∀ a, loop_body a s = a) ∧
  (skipped s ↔ loop_body acc0 s = acc0) ∧
  (¬ skipped s →
     ∀ a, length (cmake_sets (loop_body a s)) = S (length (cmake_sets a)) ∧
          is_Some (defines (loop_body a s) !! kconfiglib.name s) ∧
          is_Some (defines (loop_body a s) !! ("CONFIG_" +:+ kconfiglib.name s))).
Proof.
  assert (loop_body acc0 s = acc0 → skipped s) as Hback.
  { intros Heq. destruct (symbol_dichotomy s) as [Hs|Hemit]; [done|].
    destruct (Hemit acc0) as [Hlen _]. rewrite Heq in Hlen. simpl in Hlen. lia. }
  split; [|split].
  - split; [intros Hs a; by apply loop_body_skipped|]. intros Hall. apply Hback, Hall.
  - split; [intros Hs; by apply loop_body_skipped|done].
  - intros Hns a. by destruct (symbol_dichotomy s) as [Hs|Hemit].
Qed.

Lemma symbol_skipped_iff_witness :
  ¬ skipped sym_FOO ∧
  is_Some (defines (loop_body acc0 sym_FOO) !! "CONFIG_FOO").
Proof.
  destruct (symbol_skipped_iff sym_FOO) as (_ & Hiff & Hemit).
  assert (¬ skipped sym_FOO) as Hns.
  { intros Hs. apply Hiff in Hs. apply (f_equal cmake_sets) in Hs. discriminate Hs. }
  split; [exact Hns|]. apply (Hemit Hns acc0).
Defined.

(** ** Invariants of the aggregated collection *)

Section invariants.

Implicit Types (a : Acc) (s : Symbol) (l : list Symbol) (k v : string).

(** An entry of the output was written by a symbol of the schema, and a key
    written by a symbol is a key of the output. *)
Lemma run_loop_lookup_origin l k v :
  defines (run_loop l) !! k = Some v →
  ∃ s, s ∈ l ∧ defines (loop_body acc0 s) !! k = Some v.
Proof.
  induction l as [|s l IH].
  { change (defines (run_loop [])) with (∅ : gmap string string).
    by rewrite lookup_empty. }
  rewrite run_loop_cons_defines, lookup_union_Some_raw.
  intros [Hl|[_ Hs]].
  - destruct (IH Hl) as (s' & Hin & Hs'). exists s'. split; [by right|done].
  - exists s. split; [by left|done].
Qed.

Lemma run_loop_key_elem l s k :
  s ∈ l → is_Some (defines (loop_body acc0 s) !! k) →
  is_Some (defines (run_loop l) !! k).
Proof.
  intros (l1 & l2 & ->)%list_elem_of_split Hs.
  rewrite run_loop_app_defines, run_loop_cons_defines, !lookup_union_is_Some.
  auto.
Qed.

Lemma run_loop_statement_origin l line :
  line ∈ cmake_sets (run_loop l) →
  ∃ s, s ∈ l ∧ line ∈ cmake_sets (loop_body acc0 s).
Proof.
  induction l as [|s l IH]; [by intros ?%elem_of_nil|].
  rewrite run_loop_cons_cmake_sets, elem_of_app. intros [Hs|Hl].
  - exists s. split; [by left|done].
  - destruct (IH Hl) as (s' & Hin & Hs'). exists s'. split; [by right|done].
Qed.

Ltac empty_lookup :=
  change (defines acc0) with (∅ : gmap string string); by rewrite lookup_empty.

(** The entries one symbol writes: key forms, values, and the CONFIG_ twin of
    each key. *)
Lemma loop_body_entry_inv s k v :
  defines (loop_body acc0 s) !! k = Some v →
  kconfiglib.name s ≠ "" ∧ v ≠ "" ∧
  (k = kconfiglib.name s ∨ k = "CONFIG_" +:+ kconfiglib.name s ∨
   k = kconfiglib.name s +:+ "_MODULE" ∨
   k = "CONFIG_" +:+ kconfiglib.name s +:+ "_MODULE") ∧
  (is_Some (defines (loop_body acc0 s) !! ("CONFIG_" +:+ k)) ∨
   ∃ k', k = "CONFIG_" +:+ k' ∧ is_Some (defines (loop_body acc0 s) !! k')).
Proof.
  destruct (symbol_cases s)
    as [Hs|[(Hn & Ht & Htri)|[(Hn & Ht & Htri)|(Hn & Ht & v0 & Hv & Hne)]]].
  - rewrite (loop_body_skipped acc0 s Hs). empty_lookup.
  - rewrite loop_body_selected_lookup by done.
    case_decide as Hk; [|empty_lookup].
    intros [= <-]. split; [done|]. split; [done|]. split; [tauto|].
    destruct Hk as [->| ->].
    + left. rewrite loop_body_selected_lookup, decide_True by auto. eauto.
    + right. eexists; split; [done|].
      rewrite loop_body_selected_lookup, decide_True by auto. eauto.
  - rewrite loop_body_module_lookup by done.
    case_decide as Hm.
    + intros [= <-]. split; [done|]. split; [done|]. split; [tauto|].
      destruct Hm as [->| ->].
      * left. rewrite loop_body_module_lookup, decide_True by auto. eauto.
      * right. eexists; split; [done|].
        rewrite loop_body_module_lookup, decide_True by auto. eauto.
    + case_decide as Hk; [|empty_lookup].
      intros [= <-]. split; [done|]. split; [done|]. split; [tauto|].
      destruct Hk as [->| ->].
      * left. rewrite loop_body_module_lookup by done.
        case_decide; [eauto|]. rewrite decide_True by auto. eauto.
      * right. eexists; split; [done|].
        rewrite loop_body_module_lookup by done.
        case_decide; [eauto|]. rewrite decide_True by auto. eauto.
  - rewrite (loop_body_valued_lookup acc0 s v0) by done.
    case_decide as Hk; [|empty_lookup].
    intros [= <-]. split; [done|]. split; [by case_decide; destruct v0|].
    split; [tauto|].
    destruct Hk as [->| ->].
    + left. rewrite (loop_body_valued_lookup acc0 s v0) by done.
      rewrite (decide_True (P := _ ∨ _)) by auto. eauto.
    + right. eexists; split; [done|].
      rewrite (loop_body_valued_lookup acc0 s v0) by done.
      rewrite (decide_True (P := _ ∨ _)) by auto. eauto.
Qed.

(** A key of the output has one of the four forms, for a symbol of the
    schema. *)
Lemma defines_lookup_keys l k v :
  defines (run_loop l) !! k = Some v →
  ∃ s, s ∈ l ∧
       (k = kconfiglib.name s ∨ k = "CONFIG_" +:+ kconfiglib.name s ∨
        k = kconfiglib.name s +:+ "_MODULE" ∨
        k = "CONFIG_" +:+ kconfiglib.name s +:+ "_MODULE").
Proof.
  intros (s & Hin & Hs)%run_loop_lookup_origin.
  destruct (loop_body_entry_inv s k v Hs) as (_ & _ & Hk & _). by exists s.
Qed.

Lemma length_sorted (d : gmap string string) : length (sorted d) = size d.
Proof.
  unfold sorted. rewrite merge_sort_Permutation, <- size_dom. done.
Qed.

End invariants.

(** ** Unselected symbols *)




(** X9.  Every entry of the aggregated collection, for every schema, has a
    non-empty key and a non-empty value and was written by a named symbol of
    the schema: its key is that symbol's name, alone or with the CONFIG_
    prefix, the _MODULE suffix, or both. *)
Theorem defines_entries_provenance (syms : list Symbol) (k v : string) :
  defines (run_loop syms) !! k = Some v →
  k ≠ "" ∧ v ≠ "" ∧
  ∃ s, s ∈ syms ∧ kconfiglib.name s ≠ "" ∧
       defines (loop_body acc0 s) !! k = Some v ∧
       (k = kconfiglib.name s ∨ k = "CONFIG_" +:+ kconfiglib.name s ∨
        k = kconfiglib.name s +:+ "_MODULE" ∨
        k = "CONFIG_" +:+ kconfiglib.name s +:+ "_MODULE").
Proof.
  intros (s & Hin & Hs)%run_loop_lookup_origin.
  destruct (loop_body_entry_inv s k v Hs) as (Hn & Hv & Hk & _).
  split; [|split; [done|by exists s]].
  destruct (kconfiglib.name s) as [|c n] eqn:Hname; [done|].
  destruct Hk as [->|[->|[->| ->]]]; discriminate.
Qed.

Lemma defines_entries_provenance_witness :
  defines (run_loop [sym_OFF; sym_BAR; sym_FOO]) !! "BAR_MODULE" = Some "1" ∧
  ∃ s, s ∈ [sym_OFF; sym_BAR; sym_FOO] ∧ kconfiglib.name s ≠ "" ∧
       defines (loop_body acc0 s) !! "BAR_MODULE" = Some "1" ∧
       ("BAR_MODULE" = kconfiglib.name s ∨
        "BAR_MODULE" = "CONFIG_" +:+ kconfiglib.name s ∨
        "BAR_MODULE" = kconfiglib.name s +:+ "_MODULE" ∨
        "BAR_MODULE" = "CONFIG_" +:+ kconfiglib.name s +:+ "_MODULE").
Proof.
  split; [reflexivity|].
  apply (defines_entries_provenance [sym_OFF; sym_BAR; sym_FOO] "BAR_MODULE" "1").
  reflexivity.
Defined.

(** X10.  Keys come in pairs, for every schema: a key of the aggregated
    collection either has its CONFIG_-prefixed twin in the collection or is
    itself the CONFIG_-prefixed twin of a key in the collection. *)
Theorem defines_config_pairing (syms : list Symbol) (k : string) :
  is_Some (defines (run_loop syms) !! k) →
  is_Some (defines (run_loop syms) !! ("CONFIG_" +:+ k)) ∨
  ∃ k', k = "CONFIG_" +:+ k' ∧ is_Some (defines (run_loop syms) !! k').
Proof.
  intros [v (s & Hin & Hs)%run_loop_lookup_origin].
  destruct (loop_body_entry_inv s k v Hs) as (_ & _ & _ & [Htwin|(k' & -> & Hk')]).
  - left. by apply (run_loop_key_elem syms s).
  - right. exists k'. split; [done|]. by apply (run_loop_key_elem syms s).
Qed.

Lemma defines_config_pairing_witness :
  is_Some (defines (run_loop [sym_BASE; sym_BAR]) !! "BAR_MODULE") ∧
  (is_Some (defines (run_loop [sym_BASE; sym_BAR]) !! ("CONFIG_" +:+ "BAR_MODULE")) ∨
   ∃ k', "BAR_MODULE" = "CONFIG_" +:+ k' ∧
         is_Some (defines (run_loop [sym_BASE; sym_BAR]) !! k')).
Proof.
  assert (is_Some (defines (run_loop [sym_BASE; sym_BAR]) !! "BAR_MODULE")) as Hk
    by (exists "1"; reflexivity).
  split; [exact Hk|].
  apply (defines_config_pairing [sym_BASE; sym_BAR] "BAR_MODULE" Hk).
Defined.

(** X11.  Bounds, for every schema: the aggregated collection has one
    serialised entry per key of [defines], the assignment sequence has at
    most one statement per symbol, and [defines] has at most four keys per
    symbol. *)
Theorem collection_bounds (syms : list Symbol) :
  let a := run_loop syms in
  length (aggregated_lines a) = size (defines a) ∧
  (length (cmake_sets a) ≤ length syms)%nat ∧
  (size (defines a) ≤ 4 * length syms)%nat.
Proof.
  intros a. subst a.
  split; [unfold aggregated_lines; by rewrite length_fmap, length_sorted|split].
  - induction syms as [|s l IH]; [done|].
    rewrite run_loop_cons_cmake_sets, length_app. simpl.
    destruct (loop_body_cmake_sets_shape s) as [->|[text ->]]; simpl; lia.
  - rewrite <- length_sorted.
    set (keys := λ s : Symbol,
      [kconfiglib.name s; "CONFIG_" +:+ kconfiglib.name s;
       kconfiglib.name s +:+ "_MODULE";
       "CONFIG_" +:+ kconfiglib.name s +:+ "_MODULE"]).
    assert (length (syms ≫= keys) = (4 * length syms)%nat) as <-.
    { induction syms as [|s l IH]; [done|].
      rewrite bind_cons, length_app, IH. simpl. lia. }
    apply submseteq_length, NoDup_submseteq; [apply NoDup_sorted|].
    intros k [v Hk]%elem_of_sorted.
    destruct (defines_lookup_keys syms k v Hk) as (s & Hin & Hform).
    apply list_elem_of_bind. exists s. split; [|done].
    unfold keys. rewrite !elem_of_cons. tauto.
Qed.

(** X12.  The pass composes over concatenated schemas: a key has the value
    the second part gives it when the second part writes it, and the value
    from the first part otherwise; the assignment statements of the first
    part come first, those of the second follow. *)
Theorem run_loop_app (l1 l2 : list Symbol) (k : string) :
  defines (run_loop (l1 ++ l2)) !! k =
    match defines (run_loop l2) !! k with
    | Some v => Some v
    | None => defines (run_loop l1) !! k
    end ∧
  cmake_sets (run_loop (l1 ++ l2)) =
    (cmake_sets (run_loop l1) ++ cmake_sets (run_loop l2))%list.
Proof.
  split; [|apply run_loop_app_cmake_sets].
  rewrite run_loop_app_defines, lookup_union.
  by destruct (defines (run_loop l2) !! k), (defines (run_loop l1) !! k).
Qed.

(** ** Reading the whole artifact back *)

(** X13.  Every assignment statement of the output, for every schema, was
    produced for a named symbol of the schema, and reading its quoted literal
    back gives that symbol's resolved text: y for tri-state value 2, m for
    tri-state value 1, the text value for the integer, hexadecimal and string
    types. *)
Theorem assignment_statements_readable (syms : list Symbol) (line : string) :
  line ∈ cmake_sets (run_loop syms) →
  ∃ s text,
    s ∈ syms ∧ kconfiglib.name s ≠ "" ∧
    line = set_line (kconfiglib.name s) (_cmake_escape text) ∧
    read_set_line (kconfiglib.name s) line = Some text ∧
    ((kconfiglib.type s ∈ [BOOL; TRISTATE] ∧ kconfiglib.tri_value s = 2 ∧ text = "y") ∨
     (kconfiglib.type s ∈ [BOOL; TRISTATE] ∧ kconfiglib.tri_value s = 1 ∧ text = "m") ∨
     (kconfiglib.type s ∈ [INT; HEX; STRING] ∧ kconfiglib.str_value s = Some text)).
Proof.
  intros (s & Hin & Hline)%run_loop_statement_origin.
  destruct (symbol_cases s)
    as [Hs|[(Hn & Ht & Htri)|[(Hn & Ht & Htri)|(Hn & Ht & v & Hv & Hne)]]].
  - rewrite (loop_body_skipped acc0 s Hs) in Hline. by apply elem_of_nil in Hline.
  - rewrite loop_body_selected in Hline by done.
    apply list_elem_of_singleton in Hline as ->.
    exists s, "y". split; [done|]. split; [done|]. split; [done|].
    split; [apply (read_set_line_escape _ "y")|]. auto.
  - rewrite loop_body_module in Hline by done.
    apply list_elem_of_singleton in Hline as ->.
    exists s, "m". split; [done|]. split; [done|]. split; [done|].
    split; [apply (read_set_line_escape _ "m")|]. auto.
  - rewrite (loop_body_valued acc0 s v) in Hline by done.
    apply list_elem_of_singleton in Hline as ->.
    exists s, v. split; [done|]. split; [done|]. split; [done|].
    split; [apply read_set_line_escape|]. auto.
Qed.

Lemma assignment_statements_readable_witness :
  set_line "BASE" "0x1000" ∈ cmake_sets (run_loop [sym_FOO; sym_BASE]) ∧
  ∃ s text,
    s ∈ [sym_FOO; sym_BASE] ∧ kconfiglib.name s ≠ "" ∧
    set_line "BASE" "0x1000" = set_line (kconfiglib.name s) (_cmake_escape text) ∧
    read_set_line (kconfiglib.name s) (set_line "BASE" "0x1000") = Some text ∧
    ((kconfiglib.type s ∈ [BOOL; TRISTATE] ∧ kconfiglib.tri_value s = 2 ∧ text = "y") ∨
     (kconfiglib.type s ∈ [BOOL; TRISTATE] ∧ kconfiglib.tri_value s = 1 ∧ text = "m") ∨
     (kconfiglib.type s ∈ [INT; HEX; STRING] ∧ kconfiglib.str_value s = Some text)).
Proof.
  assert (set_line "BASE" "0x1000" ∈ cmake_sets (run_loop [sym_FOO; sym_BASE]))
    as Hin by (right; left).
  split; [exact Hin|].
  apply (assignment_statements_readable [sym_FOO; sym_BASE] _ Hin).
Defined.

(** X14.  The serialised lines of the aggregated collection and the entries
    of [defines] correspond: every line is the line of an entry and reads
    back, as a quoted literal, to that entry's key, an equals sign and its
    value; every entry has its line; every key is listed once. *)
Theorem aggregated_lines_readable (a : Acc) :
  (∀ line, line ∈ aggregated_lines a →
     ∃ k v, defines a !! k = Some v ∧ line = entry_line k v ∧
            read_entry_line line = Some (k +:+ "=" +:+ v)) ∧
  (∀ k v, defines a !! k = Some v → entry_line k v ∈ aggregated_lines a) ∧
  NoDup (sorted (defines a)) ∧
  (∀ k, k ∈ sorted (defines a) ↔ is_Some (defines a !! k)).
Proof.
  split; [|split; [|split]].
  - intros line (k & -> & [v Hk]%elem_of_sorted)%list_elem_of_fmap.
    exists k, v. rewrite (define_line_lookup _ _ _ Hk).
    split; [done|]. split; [done|]. apply read_entry_line_escape.
  - intros k v. apply entry_in_aggregated.
  - apply NoDup_sorted.
  - intros k. apply elem_of_sorted.
Qed.

(** ** [_cmake_escape] on its own *)

Section escape_more.

Lemma cmake_escape_length_eq (s : string) :
  String.length (_cmake_escape s) =
    (String.length s + count_char bslash s + count_char dquote s)%nat.
Proof.
  induction s as [|c s IH]; [done|].
  rewrite cmake_escape_cons, string_app_length, IH. unfold escape_char. simpl.
  destruct (decide (c = bslash)) as [->|Hb]; [simpl; lia|].
  destruct (decide (c = dquote)) as [->|Hq]; simpl; lia.
Qed.

End escape_more.

(** X15.  [_cmake_escape] adds one character for each backslash and each
    double quote of its argument and nothing else; it returns its argument
    unchanged exactly when the argument has neither. *)
Theorem cmake_escape_length_identity (s : string) :
  String.length (_cmake_escape s) =
    (String.length s + count_char bslash s + count_char dquote s)%nat ∧
  (_cmake_escape s = s ↔ count_char bslash s = 0%nat ∧ count_char dquote s = 0%nat).
Proof.
  split; [apply cmake_escape_length_eq|]. split.
  - intros Heq%(f_equal String.length). rewrite cmake_escape_length_eq in Heq. lia.
  - induction s as [|c s IH]; [done|]. intros [Hb Hq].
    cbn [count_char] in Hb, Hq. rewrite cmake_escape_cons. unfold escape_char.
    destruct (decide (c = bslash)) as [Hcb|Hcb]; [simpl in Hb; lia|].
    destruct (decide (c = dquote)) as [Hcq|Hcq]; [simpl in Hq; lia|].
    simpl in Hb, Hq. rewrite IH by done. done.
Qed.

(** X16.  [_cmake_escape] is injective and compatible with concatenation, and
    an escaped text followed by a double quote reads back to the text whatever
    comes after the quote: escaping never leaves a quote that would close the
    literal early. *)
Theorem cmake_escape_faithful (s t rest : string) :
  (_cmake_escape s = _cmake_escape t → s = t) ∧
  _cmake_escape (s +:+ t) = _cmake_escape s +:+ _cmake_escape t ∧
  read_quoted (DQ +:+ _cmake_escape s +:+ DQ +:+ rest) = Some (s, rest).
Proof.
  split; [|split].
  - intros Heq.
    pose proof (read_quoted_body_escape s "") as Hs.
    pose proof (read_quoted_body_escape t "") as Ht.
    rewrite Heq in Hs. congruence.
  - apply cmake_escape_app.
  - apply read_quoted_escape.
Qed.

(** ** The layout of the written text *)

Section layout.

Lemma concat_cons_cons (sep x y : string) (l : list string) :
  String.concat sep (x :: y :: l) = x +:+ sep +:+ String.concat sep (y :: l).
Proof. reflexivity. Qed.

Lemma concat_app_cons (sep : string) (l1 : list string) (y : string) (l2 : list string) :
  l1 ≠ [] →
  String.concat sep (l1 ++ y :: l2) =
    String.concat sep l1 +:+ sep +:+ String.concat sep (y :: l2).
Proof.
  induction l1 as [|x l1 IH]; [done|]. intros _.
  destruct l1 as [|x' l1]; [reflexivity|].
  rewrite <- !app_comm_cons, concat_cons_cons, app_comm_cons, IH by done.
  by rewrite concat_cons_cons, !string_app_assoc.
Qed.

(** Statements followed by the final newline element: each statement ends
    its line, and one more newline follows. *)
Lemma concat_statements (sets : list string) :
  String.concat NL (sets ++ [NL]) =
    String.concat "" ((λ line, line +:+ NL) <$> sets) +:+ NL.
Proof.
  induction sets as [|x sets IH]; [done|].
  destruct sets as [|y sets].
  { change (x +:+ NL +:+ NL = (x +:+ NL) +:+ NL). by rewrite string_app_assoc. }
  rewrite <- !app_comm_cons, concat_cons_cons, app_comm_cons, IH.
  rewrite !fmap_cons, concat_cons_cons. by rewrite !string_app_assoc.
Qed.

End layout.

(** X18.  The text written for a schema, for every schema: the banner, the
    opening of the collection and the entries, one per line; the closing
    parenthesis on its own line, then a blank line; every assignment
    statement on a line of its own, newline-terminated; and one more blank
    line that ends the file. *)
Theorem render_layout (syms : list Symbol) :
  let a := run_loop syms in
  render syms =
    String.concat NL
      (["# This file is auto-generated. Do not edit."; "set(AEROSYNC_KCONFIG_DEFINES"]
       ++ aggregated_lines a)
    +:+ NL +:+ ")" +:+ NL +:+ NL
    +:+ String.concat "" ((λ line, line +:+ NL) <$> cmake_sets a)
    +:+ NL.
Proof.
  intros a. subst a. unfold render, output_lines.
  fold (aggregated_lines (run_loop syms)).
  rewrite (assoc_L (++) [_; _]).
  change ([")" +:+ NL] ++ ?r)%list with ((")" +:+ NL) :: r).
  rewrite concat_app_cons by done.
  destruct (cmake_sets (run_loop syms)) as [|x sets] eqn:Hsets; [reflexivity|].
  change ((x :: sets) ++ [NL])%list with (x :: (sets ++ [NL])%list).
  rewrite (concat_cons_cons NL (")" +:+ NL)).
  change (x :: (sets ++ [NL])%list) with ((x :: sets) ++ [NL])%list.
  rewrite concat_statements. by rewrite !string_app_assoc.
Qed.

(** * The script with collaborators that fail and print *)

Section fallible.

Implicit Types (w : World) (lib : KconfiglibIO) (e : exception).

Lemma stderr_writes_writes w (l1 l2 : list string) :
  stderr_writes (stderr_writes w l1) l2 = stderr_writes w (l1 ++ l2).
Proof. unfold stderr_writes. simpl. by rewrite (assoc_L (++)). Qed.

Lemma stderr_writes_nil w : stderr_writes w [] = w.
Proof. destruct w. unfold stderr_writes. simpl. by rewrite app_nil_r. Qed.

Lemma length_parent (p : list string) : length (parent p) = pred (length p).
Proof.
  unfold parent. rewrite removelast_firstn_len, length_take. lia.
Qed.

(** A path is a prefix of its own parent only when it is empty. *)
Lemma prefix_of_parent (p : list string) :
  p ∈ (λ n, take n (parent p)) <$> seq 0 (S (length (parent p))) ↔ p = [].
Proof.
  split.
  - intros (n & Hp & _)%list_elem_of_fmap.
    apply (f_equal length) in Hp. rewrite length_take, length_parent in Hp.
    destruct p; [done|simpl in Hp; lia].
  - intros ->. by left.
Qed.

Lemma existsb_seq_S (f : nat → bool) (n : nat) :
  existsb f (seq 0 (S n)) = existsb f (seq 0 n) || f n.
Proof. rewrite seq_S, existsb_app. simpl. by rewrite orb_false_r. Qed.

(** The two steps that write a file, on a location that takes the write and
    on one that does not. *)
Lemma write_steps_ok w (output_path : list string) (text : string) :
  writable w output_path = true →
  (mkdir_parents_io (parent output_path);; write_text_io output_path text) w =
    (write_text (mkdir_parents w (parent output_path)) output_path text, Ok tt).
Proof.
  unfold writable. rewrite existsb_seq_S, firstn_all.
  intros [[[Ha Hp]%negb_true_iff%orb_false_iff Hd%negb_true_iff]%andb_true_iff
          Hn%negb_true_iff]%andb_true_iff.
  apply bool_decide_eq_false in Hd, Hn.
  unfold mbind, IO_bind, mkdir_parents_io, write_text_io.
  rewrite Ha, Hp. rewrite bool_decide_eq_false_2; [done|].
  unfold mkdir_parents. cbn [dirs]. rewrite elem_of_union, elem_of_list_to_set.
  rewrite prefix_of_parent. tauto.
Qed.

Lemma write_steps_fail w (output_path : list string) (text : string) :
  writable w output_path = false →
  ∃ w' e,
    (mkdir_parents_io (parent output_path);; write_text_io output_path text) w =
      (w', Raise e) ∧
    files w' = files w ∧ stderr w' = stderr w ∧
    e ∈ [NotADirectoryError; FileExistsError; IsADirectoryError].
Proof.
  unfold writable. rewrite existsb_seq_S, firstn_all.
  unfold mbind, IO_bind, mkdir_parents_io, write_text_io.
  destruct (existsb _ _) eqn:Ha.
  { intros _. eexists _, _. split; [done|]. repeat split. by left. }
  destruct (is_file w (parent output_path)) eqn:Hp.
  { intros _. eexists _, _. split; [done|]. repeat split. right; by left. }
  intros Hw. simpl in Hw. rewrite bool_decide_eq_true_2.
  { eexists _, _. split; [done|]. repeat split. right; right; by left. }
  unfold mkdir_parents. cbn [dirs]. rewrite elem_of_union, elem_of_list_to_set.
  rewrite prefix_of_parent.
  apply andb_false_iff in Hw as [Hd%negb_false_iff|Hn%negb_false_iff].
  - left. by apply bool_decide_eq_true in Hd.
  - right. by apply bool_decide_eq_true in Hn.
Qed.


Lemma mkdir_parents_prefix w (p : list string) (n : nat) :
  take n p ∈ dirs (mkdir_parents w p).
Proof.
  unfold mkdir_parents. cbn [dirs]. apply elem_of_union_r, elem_of_list_to_set.
  apply list_elem_of_fmap. exists (n `min` length p)%nat. split.
  - destruct (decide (n ≤ length p)%nat) as [Hle|Hgt].
    + by rewrite Nat.min_l.
    + rewrite Nat.min_r by lia. rewrite firstn_all. apply take_ge. lia.
  - apply elem_of_seq. lia.
Qed.

Lemma io_bind_unfold {A B : Type} (m : IO A) (f : A → IO B) w :
  (m ≫= f) w =
    match m w with
    | (w', Ok a) => f a w'
    | (w', Raise e) => (w', Raise e)
    end.
Proof. reflexivity. Qed.

Lemma io_seq_ret (m1 m2 : IO unit) (code : Z) w :
  (m1;; m2;; mret code) w =
    match (m1;; m2) w with
    | (w', Ok _) => (w', Ok code)
    | (w', Raise e) => (w', Raise e)
    end.
Proof.
  rewrite !io_bind_unfold. destruct (m1 w) as [w1 [[]|e1]]; [|done].
  rewrite io_bind_unfold. by destruct (m2 w1) as [w2 [[]|e2]].
Qed.

(** The script's branches, with the steps that can raise left to decide. *)
Lemma generate_cache_io_not_found w (kconfig_path config_path output_path : list string) :
  _generate_cache_io ModuleNotFound kconfig_path config_path output_path w =
    (stderr_writes w ["kconfiglib is not installed." +:+ NL], Ok 1).
Proof. reflexivity. Qed.

Lemma generate_cache_io_import_raised e w
    (kconfig_path config_path output_path : list string) :
  _generate_cache_io (ImportRaised e) kconfig_path config_path output_path w =
    (w, Raise e).
Proof. reflexivity. Qed.

Lemma generate_cache_io_no_schema lib w
    (kconfig_path config_path output_path : list string) :
  is_file w kconfig_path = false →
  _generate_cache_io (Imported lib) kconfig_path config_path output_path w =
    match (mkdir_parents_io (parent output_path);;
           write_text_io output_path placeholder_text)
            (stderr_writes w ["warning: Kconfig file '" +:+ path_str kconfig_path +:+
                              "' not found; emitting empty cache." +:+ NL]) with
    | (w', Ok _) => (w', Ok 0)
    | (w', Raise e) => (w', Raise e)
    end.
Proof.
  intros Hk. unfold _generate_cache_io.
  rewrite io_bind_unfold. unfold is_file_io. rewrite Hk. cbn [negb].
  rewrite io_bind_unfold. unfold stderr_write_io at 1.
  unfold _write_minimal_output_io.
  rewrite io_bind_unfold.
  by destruct ((mkdir_parents_io (parent output_path);;
                write_text_io output_path placeholder_text) _) as [w' [[]|e]].
Qed.

Lemma generate_cache_io_schema lib w
    (kconfig_path config_path output_path : list string) :
  is_file w kconfig_path = true →
  _generate_cache_io (Imported lib) kconfig_path config_path output_path w =
    match Kconfig_io lib (files w) (path_str kconfig_path) with
    | (ws1, Raise e) => (stderr_writes w ws1, Raise e)
    | (ws1, Ok kconf) =>
        match (if is_file w config_path
               then load_config_io lib (files w) kconf (path_str config_path)
               else (["warning: config file '" +:+ path_str config_path +:+
                      "' not found; continuing with defaults." +:+ NL], Ok kconf)) with
        | (ws2, Raise e) => (stderr_writes w (ws1 ++ ws2), Raise e)
        | (ws2, Ok kconf) =>
            match (mkdir_parents_io (parent output_path);;
                   write_text_io output_path
                     (render (unique_defined_syms_io lib kconf).2))
                    (stderr_writes w
                       (ws1 ++ ws2 ++ (unique_defined_syms_io lib kconf).1)) with
            | (w', Ok _) => (w', Ok 0)
            | (w', Raise e) => (w', Raise e)
            end
        end
    end.
Proof.
  intros Hk. unfold _generate_cache_io.
  rewrite io_bind_unfold. unfold is_file_io at 1. rewrite Hk. cbn [negb].
  rewrite io_bind_unfold. unfold call_io at 1.
  destruct (Kconfig_io lib (files w) (path_str kconfig_path)) as [ws1 [kconf|e]];
    cbn [fst snd]; [|done].
  rewrite io_bind_unfold. unfold is_file_io at 1.
  change (is_file (stderr_writes w ws1) config_path) with (is_file w config_path).
  rewrite io_bind_unfold.
  destruct (is_file w config_path).
  - unfold call_io at 1. change (files (stderr_writes w ws1)) with (files w).
    destruct (load_config_io lib (files w) kconf (path_str config_path))
      as [ws2 [kconf2|e]]; cbn [fst snd]; rewrite stderr_writes_writes; [|done].
    rewrite io_bind_unfold. unfold call_io at 1. cbn [fst snd].
    rewrite stderr_writes_writes, <- (assoc_L (++)). apply io_seq_ret.
  - rewrite io_bind_unfold. unfold stderr_write_io at 1.
    change (stderr_write (stderr_writes w ws1) ?m)
      with (stderr_writes (stderr_writes w ws1) [m]).
    rewrite stderr_writes_writes. unfold mret at 1. unfold IO_ret at 1.
    rewrite io_bind_unfold. unfold call_io at 1. cbn [fst snd].
    rewrite stderr_writes_writes, <- (assoc_L (++)). apply io_seq_ret.
Qed.


(** With the module imported, a run either writes the output and returns 0,
    the location taking the write, or raises with every file as it was; the
    exception is the parser's or one of the three of the file system. *)
Lemma generate_cache_io_imported lib w
    (kconfig_path config_path output_path : list string) :
  let r := _generate_cache_io (Imported lib) kconfig_path config_path output_path w in
  (writable w output_path = true ∧ r.2 = Ok 0 ∧
   (∃ text, files r.1 = <[output_path := text]> (files w)) ∧
   dirs r.1 = dirs (mkdir_parents w (parent output_path))) ∨
  (∃ e, r.2 = Raise e ∧ files r.1 = files w ∧
     failure_cause lib w kconfig_path config_path output_path e).
Proof.
  intros r. subst r.
  assert (∀ w0 text,
    files w0 = files w → dirs w0 = dirs w →
    let r := match (mkdir_parents_io (parent output_path);;
                    write_text_io output_path text) w0 with
             | (w', Ok _) => (w', Ok 0)
             | (w', Raise e) => (w', Raise e)
             end in
    (writable w output_path = true ∧ r.2 = Ok 0 ∧
     (∃ text, files r.1 = <[output_path := text]> (files w)) ∧
     dirs r.1 = dirs (mkdir_parents w (parent output_path))) ∨
    (∃ e, r.2 = Raise e ∧ files r.1 = files w ∧
          writable w output_path = false ∧
          e ∈ [NotADirectoryError; FileExistsError; IsADirectoryError])) as Hwrite.
  { intros w0 text Hf Hd r.
    assert (writable w0 output_path = writable w output_path) as Hw
      by (unfold writable, is_file; by rewrite Hf, Hd).
    subst r. destruct (writable w output_path) eqn:Hwr.
    - left. rewrite write_steps_ok by done. cbn [fst snd write_text mkdir_parents files dirs].
      rewrite Hf, Hd. split; [done|]. split; [done|]. split; [by eexists|done].
    - right. destruct (write_steps_fail w0 output_path text Hw)
        as (w' & e & -> & Hf' & _ & He).
      exists e. cbn [fst snd]. by rewrite Hf', Hf. }
  assert (∀ (r : World * result Z),
    (writable w output_path = true ∧ r.2 = Ok 0 ∧
     (∃ text, files r.1 = <[output_path := text]> (files w)) ∧
     dirs r.1 = dirs (mkdir_parents w (parent output_path))) ∨
    (∃ e, r.2 = Raise e ∧ files r.1 = files w ∧
          writable w output_path = false ∧
          e ∈ [NotADirectoryError; FileExistsError; IsADirectoryError]) →
    (writable w output_path = true ∧ r.2 = Ok 0 ∧
     (∃ text, files r.1 = <[output_path := text]> (files w)) ∧
     dirs r.1 = dirs (mkdir_parents w (parent output_path))) ∨
    (∃ e, r.2 = Raise e ∧ files r.1 = files w ∧
       failure_cause lib w kconfig_path config_path output_path e)) as Hweaken.
  { unfold failure_cause. intros r [?|(e & ? & ? & ? & ?)]; [by left|].
    right. exists e. split; [done|]. split; [done|]. by right; right. }
  destruct (is_file w kconfig_path) eqn:Hk.
  - rewrite generate_cache_io_schema by done.
    destruct (Kconfig_io lib (files w) (path_str kconfig_path))
      as [ws1 [kconf|e]] eqn:HK; cbn [fst snd].
    2:{ right. exists e. split; [done|]. split; [done|]. left. by rewrite HK. }
    destruct (is_file w config_path) eqn:Hc.
    + destruct (load_config_io lib (files w) kconf (path_str config_path))
        as [ws2 [kconf2|e]] eqn:Hload; cbn [fst snd].
      * by apply Hweaken, Hwrite.
      * right. exists e. split; [done|]. split; [done|]. right. left.
        split; [done|]. split; [done|]. exists kconf. by rewrite HK, Hload.
    + by apply Hweaken, Hwrite.
  - rewrite generate_cache_io_no_schema by done. by apply Hweaken, Hwrite.
Qed.

End fallible.

(** X1.  The outcome of a run, collaborators failing or not: it returns 1
    exactly when the module is not found, and returns no code other than 0
    and 1; when it returns 0 the module was imported, the output location took
    the write, the output path is a file and its parent with all ancestors are
    directories.  The exit status of the process is 0 exactly in that last
    case, and 1 in every other, an exception included. *)
Theorem generate_cache_io_outcome (imp : import_outcome) (w : World)
    (kconfig_path config_path output_path : Path) :
  let r := _generate_cache_io imp kconfig_path config_path output_path w in
  (r.2 = Ok 1 ↔ imp = ModuleNotFound) ∧
  (∀ code, r.2 = Ok code → code = 0 ∨ code = 1) ∧
  (r.2 = Ok 0 →
     (∃ lib, imp = Imported lib) ∧ writable w output_path = true ∧
     is_file r.1 output_path = true ∧
     ∀ n, take n (parent output_path) ∈ dirs r.1) ∧
  (exit_status r.2 = 0 ↔ r.2 = Ok 0) ∧
  (exit_status r.2 = 0 ∨ exit_status r.2 = 1).
Proof.
  intros r. subst r. destruct imp as [|e|lib].
  - rewrite generate_cache_io_not_found. cbn [fst snd exit_status].
    split; [done|]. split; [intros code [= <-]; by right|].
    split; [done|]. split; [done|by right].
  - rewrite generate_cache_io_import_raised. cbn [fst snd exit_status].
    split; [done|]. split; [done|]. split; [done|]. split; [done|by right].
  - destruct (generate_cache_io_imported lib w kconfig_path config_path output_path)
      as [(Hw & Hr & [text Hf] & Hd)|(e & Hr & _)]; rewrite Hr; cbn [exit_status].
    + split; [done|]. split; [intros code [= <-]; by left|].
      split; [|split; [done|by left]].
      intros _. split; [by eexists|]. split; [done|]. split.
      * unfold is_file. rewrite Hf. apply bool_decide_eq_true.
        rewrite lookup_insert_eq. eauto.
      * intros n. rewrite Hd. apply mkdir_parents_prefix.
    + split; [done|]. split; [done|]. split; [done|]. split; [done|by right].
Qed.

Lemma generate_cache_io_outcome_witness :
  (_generate_cache_io (Imported (warning_lib [sym_FOO] [sym_BAR]))
     ["Kconfig"] [".config"] ["build"; "kconfig.cmake"] world_with_schema).2 = Ok 0 ∧
  writable world_with_schema ["build"; "kconfig.cmake"] = true.
Proof.
  assert ((_generate_cache_io (Imported (warning_lib [sym_FOO] [sym_BAR]))
     ["Kconfig"] [".config"] ["build"; "kconfig.cmake"] world_with_schema).2 = Ok 0)
    as Hr by reflexivity.
  split; [exact Hr|].
  destruct (generate_cache_io_outcome (Imported (warning_lib [sym_FOO] [sym_BAR]))
              world_with_schema ["Kconfig"] [".config"] ["build"; "kconfig.cmake"])
    as (_ & _ & Hok & _).
  apply (Hok Hr).
Defined.





(** X4.  With the schema present and no selection file, [load_config] is not
    called: whatever it would do, when the parser accepts the schema and the
    output location takes the write the run returns 0, the error stream
    gains the parser's warnings on the schema, then the script's one warning
    that names the selection path, then what evaluating the symbols prints,
    and the output is the rendering of the symbols the schema alone gives. *)
Theorem missing_config_uses_defaults (lib : KconfiglibIO) (w : World)
    (kconfig_path config_path output_path : Path)
    (ws1 ws3 : list string) (kconf : KconfigIO lib) (syms : list Symbol) :
  is_file w kconfig_path = true →
  is_file w config_path = false →
  Kconfig_io lib (files w) (path_str kconfig_path) = (ws1, Ok kconf) →
  unique_defined_syms_io lib kconf = (ws3, syms) →
  writable w output_path = true →
  let r := _generate_cache_io (Imported lib) kconfig_path config_path output_path w in
  r.2 = Ok 0 ∧
  stderr r.1 =
    (stderr w ++ ws1 ++
     ["warning: config file '" +:+ path_str config_path +:+
      "' not found; continuing with defaults." +:+ NL] ++ ws3)%list ∧
  files r.1 !! output_path = Some (render syms).
Proof.
  intros Hk Hc HK Hsyms Hw r. subst r.
  rewrite generate_cache_io_schema by done. rewrite HK, Hc, Hsyms. cbn [fst snd].
  rewrite write_steps_ok by done.
  cbn [fst snd write_text mkdir_parents stderr_writes files dirs stderr].
  by rewrite lookup_insert_eq.
Qed.

Lemma missing_config_uses_defaults_witness :
  is_file world_with_schema ["Kconfig"] = true ∧
  is_file world_with_schema [".config"] = false ∧
  writable world_with_schema ["build"; "kconfig.cmake"] = true ∧
  files (_generate_cache_io (Imported (warning_lib [sym_FOO] [sym_BAR]))
           ["Kconfig"] [".config"] ["build"; "kconfig.cmake"] world_with_schema).1
    !! ["build"; "kconfig.cmake"] = Some (render [sym_FOO]).
Proof.
  split; [reflexivity|]. split; [reflexivity|]. split; [reflexivity|].
  apply (missing_config_uses_defaults (warning_lib [sym_FOO] [sym_BAR])
           world_with_schema ["Kconfig"] [".config"] ["build"; "kconfig.cmake"]
           ["warning: FOO has no type"] ["warning: bad default"]
           [sym_FOO] [sym_FOO]); reflexivity.
Defined.

(** X5.  With the schema and the selection file both present, when the
    parser accepts both and the output location takes the write the run
    returns 0, the script prints nothing of its own (the error stream gains
    the parser's warnings and no other message), and the output is the
    rendering of the symbols after [load_config]. *)
Theorem present_config_is_loaded (lib : KconfiglibIO) (w : World)
    (kconfig_path config_path output_path : Path)
    (ws1 ws2 ws3 : list string) (kconf kconf' : KconfigIO lib)
    (syms : list Symbol) :
  is_file w kconfig_path = true →
  is_file w config_path = true →
  Kconfig_io lib (files w) (path_str kconfig_path) = (ws1, Ok kconf) →
  load_config_io lib (files w) kconf (path_str config_path) = (ws2, Ok kconf') →
  unique_defined_syms_io lib kconf' = (ws3, syms) →
  writable w output_path = true →
  let r := _generate_cache_io (Imported lib) kconfig_path config_path output_path w in
  r.2 = Ok 0 ∧
  stderr r.1 = (stderr w ++ ws1 ++ ws2 ++ ws3)%list ∧
  files r.1 !! output_path = Some (render syms).
Proof.
  intros Hk Hc HK Hload Hsyms Hw r. subst r.
  rewrite generate_cache_io_schema by done.
  rewrite HK, Hc, Hload, Hsyms. cbn [fst snd].
  rewrite write_steps_ok by done.
  cbn [fst snd write_text mkdir_parents stderr_writes files dirs stderr].
  by rewrite lookup_insert_eq.
Qed.

Lemma present_config_is_loaded_witness :
  is_file world_with_config ["Kconfig"] = true ∧
  is_file world_with_config [".config"] = true ∧
  writable world_with_config ["build"; "kconfig.cmake"] = true ∧
  files (_generate_cache_io (Imported (warning_lib [sym_FOO] [sym_BAR]))
           ["Kconfig"] [".config"] ["build"; "kconfig.cmake"] world_with_config).1
    !! ["build"; "kconfig.cmake"] = Some (render [sym_BAR]).
Proof.
  split; [reflexivity|]. split; [reflexivity|]. split; [reflexivity|].
  apply (present_config_is_loaded (warning_lib [sym_FOO] [sym_BAR])
           world_with_config ["Kconfig"] [".config"] ["build"; "kconfig.cmake"]
           ["warning: FOO has no type"] ["warning: BAZ is not defined"]
           ["warning: bad default"] [sym_FOO] [sym_BAR] [sym_BAR]); reflexivity.
Defined.

(** X7.  A schema file the parser rejects is not treated like a missing one:
    the parser's exception leaves [_generate_cache], no placeholder and no
    output is written, files and directories stay as they were, the script
    prints no message of its own after the parser's warnings, and the
    process ends with status 1 although the module was found.  The same
    holds when the parser rejects the selection file. *)
Theorem parser_failure_propagates (lib : KconfiglibIO) (w : World)
    (kconfig_path config_path output_path : Path) :
  is_file w kconfig_path = true →
  let r := _generate_cache_io (Imported lib) kconfig_path config_path output_path w in
  (∀ ws1 e,
     Kconfig_io lib (files w) (path_str kconfig_path) = (ws1, Raise e) →
     r = (stderr_writes w ws1, Raise e) ∧ exit_status r.2 = 1) ∧
  (∀ ws1 kconf ws2 e,
     Kconfig_io lib (files w) (path_str kconfig_path) = (ws1, Ok kconf) →
     is_file w config_path = true →
     load_config_io lib (files w) kconf (path_str config_path) = (ws2, Raise e) →
     r = (stderr_writes w (ws1 ++ ws2), Raise e) ∧ exit_status r.2 = 1).
Proof.
  intros Hk r. subst r. rewrite generate_cache_io_schema by done. split.
  - intros ws1 e HK. by rewrite HK.
  - intros ws1 kconf ws2 e HK Hc Hload. by rewrite HK, Hc, Hload.
Qed.

Lemma parser_failure_propagates_witness :
  is_file world_with_schema ["Kconfig"] = true ∧
  _generate_cache_io (Imported failing_lib)
    ["Kconfig"] [".config"] ["build"; "kconfig.cmake"] world_with_schema =
  (stderr_writes world_with_schema ["warning: FOO has no type"],
   Raise (ParserFailure "KconfigError")).
Proof.
  split; [reflexivity|].
  destruct (parser_failure_propagates failing_lib world_with_schema
              ["Kconfig"] [".config"] ["build"; "kconfig.cmake"] eq_refl)
    as [Hschema _].
  apply (Hschema ["warning: FOO has no type"] (ParserFailure "KconfigError")).
  reflexivity.
Defined.

(** X19.  The two models agree where the first one applies: for a parser
    that answers without printing or raising, on an output location that
    takes the write, the run with fallible collaborators ends in the world
    and with the exit code [_generate_cache] gives; with the module missing
    they agree on every world. *)
Theorem generate_cache_io_refines (lib : option Kconfiglib) (w : World)
    (kconfig_path config_path output_path : Path) :
  (is_Some lib → writable w output_path = true) →
  _generate_cache_io (import_of lib) kconfig_path config_path output_path w =
    ((_generate_cache lib w kconfig_path config_path output_path).1,
     Ok (_generate_cache lib w kconfig_path config_path output_path).2).
Proof.
  intros Hw. destruct lib as [lib|]; [|done].
  assert (writable w output_path = true) as Hw' by eauto. clear Hw.
  unfold import_of. destruct (is_file w kconfig_path) eqn:Hk.
  - rewrite generate_cache_io_schema, generate_cache_schema by done.
    cbn [answering Kconfig_io load_config_io unique_defined_syms_io fst snd].
    unfold resolved_syms.
    destruct (is_file w config_path); cbn [fst snd app].
    + rewrite stderr_writes_nil. by rewrite write_steps_ok.
    + by rewrite write_steps_ok.
  - rewrite generate_cache_io_no_schema, generate_cache_no_schema by done.
    by rewrite write_steps_ok.
Qed.

Lemma generate_cache_io_refines_witness :
  writable world_with_schema ["build"; "kconfig.cmake"] = true ∧
  _generate_cache_io (import_of (Some (const_lib [sym_FOO; sym_BAR])))
    ["Kconfig"] [".config"] ["build"; "kconfig.cmake"] world_with_schema =
  ((_generate_cache (Some (const_lib [sym_FOO; sym_BAR])) world_with_schema
      ["Kconfig"] [".config"] ["build"; "kconfig.cmake"]).1,
   Ok (_generate_cache (Some (const_lib [sym_FOO; sym_BAR])) world_with_schema
         ["Kconfig"] [".config"] ["build"; "kconfig.cmake"]).2).
Proof.
  split; [reflexivity|].
  apply (generate_cache_io_refines (Some (const_lib [sym_FOO; sym_BAR]))
           world_with_schema ["Kconfig"] [".config"] ["build"; "kconfig.cmake"]).
  intros _. reflexivity.
Defined.
